(** * RuleList: the fetch - transform - merge - convert pipeline of [start.py]

    A shallow embedding of [TextProcessor] and [RulesetGenerator] and the
    properties of the pipeline.  Python [str] values are lists of Unicode
    code points, dictionaries and the file system are finite maps, and the
    effectful methods live in a small state-and-exception monad.

    What the generator does not decide itself is a field of [env]: the
    answers of the network, disk faults, the conversion tool, the order in
    which the threads of a pool finish, and what other processes do to the
    files.  A call submitted to a thread pool runs as a whole, and the calls
    of a pool run in the order in which they finish; the log messages are
    given in English. *)

From Stdlib Require Import Ascii String.
From stdpp Require Import gmap strings list sorting.

Open Scope N_scope.
Open Scope list_scope.

(** ** Python [str]: sequences of code points *)

Abbreviation char := N (only parsing).
Abbreviation str := (list N) (only parsing).

(** A source literal (all literals of [start.py] used below are ASCII). *)
Definition lit (s : string) : str := N_of_ascii <$> list_ascii_of_string s.

Definition LF : char := 10.
Definition CR : char := 13.

(** The line boundaries of [str.splitlines]:
    \n \v \f \r \x1c \x1d \x1e \x85 \u2028 \u2029 (and the pair \r\n). *)
Definition is_linebreak (c : char) : bool :=
  existsb (N.eqb c) [10; 11; 12; 13; 28; 29; 30; 133; 8232; 8233].

(** The white space removed by [str.strip()] (the characters for which
    [str.isspace] holds). *)
Definition is_space (c : char) : bool :=
  (9 <=? c) && (c <=? 13) || (28 <=? c) && (c <=? 32)
  || existsb (N.eqb c) [133; 160; 5760; 8232; 8233; 8239; 8287; 12288]
  || (8192 <=? c) && (c <=? 8202).

(** [s.splitlines()]: a line ends at a line boundary, which is not part of
    the line; \r\n is one boundary; no empty last line is produced when the
    text ends with a boundary. *)
Fixpoint splitlines (s : str) : list str :=
  match s with
  | [] => []
  | c :: s' =>
      if is_linebreak c then
        [] :: match s' with
              | c' :: s'' =>
                  if (c =? CR) && (c' =? LF) then splitlines s''
                  else splitlines s'
              | [] => []
              end
      else
        match splitlines s' with
        | [] => [[c]]
        | line :: lines => (c :: line) :: lines
        end
  end.

Fixpoint lstrip (s : str) : str :=
  match s with
  | c :: s' => if is_space c then lstrip s' else s
  | [] => []
  end.

Definition rstrip (s : str) : str := reverse (lstrip (reverse s)).

(** [s.strip()] *)
Definition strip (s : str) : str := rstrip (lstrip s).

(** [s.startswith(p)] *)
Fixpoint startswith (s p : str) : bool :=
  match p, s with
  | [], _ => true
  | _ :: _, [] => false
  | a :: p', b :: s' => (a =? b) && startswith s' p'
  end.

(** [s.endswith(p)] *)
Definition endswith (s p : str) : bool := startswith (reverse s) (reverse p).

(** [s.encode('utf-8')] raises [UnicodeEncodeError] when [s] holds a
    surrogate code point (U+D800 to U+DFFF), and only then. *)
Definition is_surrogate (c : char) : bool := (55296 <=? c) && (c <=? 57343).

Definition encodable (s : str) : bool := forallb (λ c, negb (is_surrogate c)) s.

(** [p in s]: the string [p] occurs in [s] *)
Fixpoint contains (s p : str) : bool :=
  startswith s p
  || match s with
     | [] => false
     | _ :: s' => contains s' p
     end.

(** [sep.join(lines)] *)
Fixpoint join (sep : str) (lines : list str) : str :=
  match lines with
  | [] => []
  | [line] => line
  | line :: rest => line ++ sep ++ join sep rest
  end.

(** Truth value of a [str]: non-empty. *)
Definition truthy (s : str) : bool :=
  match s with [] => false | _ :: _ => true end.

(** Comparison of [str]: lexicographic on code points. *)
Fixpoint str_leb (a b : str) : bool :=
  match a, b with
  | [], _ => true
  | _ :: _, [] => false
  | x :: a', y :: b' => (x <? y) || (x =? y) && str_leb a' b'
  end.

Definition str_le : relation str := λ a b, str_leb a b = true.

Global Instance str_le_dec a b : Decision (str_le a b) :=
  decide (str_leb a b = true).

(** [sorted(xs)] for a collection of [str]. *)
Definition sorted (xs : list str) : list str := merge_sort str_le xs.

(** [set(xs)]; iterating over it enumerates [elements]. *)
Definition set_ (xs : list str) : gset str := list_to_set xs.

(** ** [class TextProcessor] *)

Module TextProcessor.

(** The condition of the list comprehension:
    [line.strip() and not line.strip().startswith('#')]. *)
Definition keep_line (line : str) : bool :=
  truthy (strip line) && negb (startswith (strip line) (lit "#")).

Definition remove_comments_and_empty (text : str) : str :=
  let lines := List.filter keep_line (splitlines text) in
  join [LF] lines.

Definition add_prefix_suffix (text prefix suffix : str) : str :=
  let lines := (λ line, prefix ++ line ++ suffix) <$> splitlines text in
  join [LF] lines.

Definition format_pihole (text : str) : str :=
  add_prefix_suffix text (lit "  - '+.") (lit "'").

Definition format_yaml_list (text : str) : str :=
  add_prefix_suffix text (lit "  - '") (lit "'").

End TextProcessor.

(** ** Configuration *)

Record SourceConfig := {
  url : string;
  format_override : option string;
  processors : option (list string);
}.

Record TaskConfig := {
  type : string;
  format : string;
  sources : list SourceConfig;
}.

(** The release list of the GitHub API, as far as [_find_download_url]
    reads it: of a release the keys [tag_name] and [assets], of an asset the
    keys [name] and [browser_download_url].  A key that is missing is
    [None]; the values are strings and lists. *)
Record Asset := {
  asset_name : option str;
  browser_download_url : option str;
}.

Record Release := {
  tag_name : option str;
  assets : option (list Asset);
}.

(** [self.config['mihomo']] *)
Record MihomoConfig := {
  binary_pattern : str;
  file_extension : str;
}.

(** ** The world: file system, log, publish step *)

Inductive level := DEBUG | INFO | WARNING | ERROR.

(** [files] maps a path to the content of the regular file there (its
    [st_size] is zero exactly when the content is empty); [log] is what
    [logger] received, oldest entry first; [commits] counts the calls of
    [commit_changes]. *)
Record state := State {
  files : gmap string str;
  log : list (level * string);
  commits : nat;
}.

Inductive exn :=
  | Timeout                       (* requests.exceptions.Timeout *)
  | RequestException              (* any other requests exception *)
  | RetryError                    (* tenacity: attempts exhausted *)
  | ValueError (msg : string)
  | UnicodeEncodeError            (* a subclass of ValueError *)
  | OSError
  | CalledProcessError
  | RuntimeError                  (* any other subclass of Exception *)
  | SystemExit (code : Z).        (* sys.exit; not a subclass of Exception *)

(** [except Exception] does not catch [SystemExit]. *)
Definition is_Exception (e : exn) : bool :=
  match e with SystemExit _ => false | _ => true end.

Inductive res (A : Type) :=
  | Ret (a : A)
  | Raise (e : exn).
Arguments Ret {A} a.
Arguments Raise {A} e.

Definition M (A : Type) : Type := state → res A * state.

Definition ret {A} (a : A) : M A := λ s, (Ret a, s).

Definition raise {A} (e : exn) : M A := λ s, (Raise e, s).

Definition bind {A B} (m : M A) (f : A → M B) : M B :=
  λ s, match m s with
       | (Ret a, s') => f a s'
       | (Raise e, s') => (Raise e, s')
       end.

(** [try: m  except ...: h e], where [h] re-raises what it does not handle. *)
Definition try_except {A} (m : M A) (h : exn → M A) : M A :=
  λ s, match m s with
       | (Ret a, s') => (Ret a, s')
       | (Raise e, s') => h e s'
       end.

Global Instance M_ret : MRet M := @ret.
Global Instance M_bind : MBind M := λ A B f m, bind m f.

Fixpoint foldM {A B} (f : A → B → M A) (a : A) (l : list B) : M A :=
  match l with
  | [] => ret a
  | b :: l' => a' ← f a b; foldM f a' l'
  end.

(** [logger.<level>(message)] *)
Definition logger (l : level) (message : string) : M unit :=
  λ s, (Ret tt, State (files s) (log s ++ [(l, message)]) (commits s)).

Definition when (b : bool) (m : M unit) : M unit := if b then m else ret tt.

(** [path.exists()] *)
Definition path_exists (p : string) : M bool :=
  λ s, (Ret (bool_decide (is_Some (files s !! p))), s).

(** A file is there and its size is not zero. *)
Definition nonempty_file (fs : gmap string str) (p : string) : bool :=
  match fs !! p with
  | Some (_ :: _) => true
  | Some [] | None => false
  end.

(** [path.exists() and path.stat().st_size > 0] *)
Definition exists_nonempty (p : string) : M bool :=
  λ s, (Ret (nonempty_file (files s) p), s).

(** [path.unlink()] of an existing file *)
Definition unlink (p : string) : M unit :=
  λ s, (Ret tt, State (delete p (files s)) (log s) (commits s)).

(** A binary file written in one piece. *)
Definition write_bytes (p : string) (data : str) : M unit :=
  λ s, (Ret tt, State (<[p := data]> (files s)) (log s) (commits s)).

(** [dir / name] *)
Definition path_join (dir name : string) : string := dir +:+ "/" +:+ name.

(** A future of a thread pool: the submitted call has run and the future
    holds its value or the exception it raised. *)
Definition submit {A} (m : M A) : M (res A) :=
  λ s, let '(r, s') := m s in (Ret r, s').

(** [future.result()] *)
Definition result {A} (future : res A) : M A :=
  match future with
  | Ret a => ret a
  | Raise e => raise e
  end.

Fixpoint submit_all {A B} (f : A → M B) (l : list A) : M (list (res B)) :=
  match l with
  | [] => ret []
  | a :: l' => r ← submit (f a); rs ← submit_all f l'; ret (r :: rs)
  end.

(** ** The generator and its surroundings *)

(** What one attempt of [session.get] does (after the session's own
    transport-level retries). *)
Inductive response :=
  | RespTimeout                 (* raises requests.exceptions.Timeout *)
  | RespError                   (* connection error, or [raise_for_status] fails *)
  | RespText (text : str)       (* status 2xx, [response.text] *)
  | RespBroken.                 (* any other exception of these calls *)

(** What the disk does to [temp_file.write_text]: the data is written; or
    the file cannot be opened ([WriteFailed None]); or the file is opened
    and writing fails, which leaves some content behind. *)
Inductive write_outcome :=
  | Written
  | WriteFailed (left_behind : option str).

(** What the conversion subprocess does: it exits with a code, having
    changed the file system, or cannot be started. *)
Inductive process_outcome :=
  | Exited (code : Z) (files' : gmap string str)
  | NotStarted.

(** How [_download_mihomo] ends.  [Downloaded]: every step worked.
    [DownloadFailed]: a step raised an exception, which one of the three
    handlers catches; [announced] says whether the link had been found and
    logged by then, [gz] and [tool] what the steps before the exception did
    to [mihomo.gz] and to [mihomo]. *)
Inductive download_error :=
  | NetworkError                (* requests.exceptions.RequestException *)
  | FileError                   (* OSError, IOError *)
  | OtherError.                 (* any other Exception, as the one for no link *)

Inductive file_effect :=
  | Untouched
  | Holds (data : str)
  | Removed.

Inductive download_outcome :=
  | Downloaded (binary : str)
  | DownloadFailed (e : download_error) (announced : bool) (gz tool : file_effect).

(** [self]: the paths of the configuration, and the behaviour of everything
    the generator calls into: network, disk faults, the conversion tool, the
    thread pools' completion order, other processes. *)
Record env := Env {
  work_dir : string;
  output_dir : string;
  (** task name, source index, url, attempt number *)
  session_get : string → nat → string → nat → response;
  (** the moment the fetch of a source of a task completes *)
  source_finish_time : string → nat → nat;
  (** the moment a task completes *)
  task_finish_time : string → nat;
  write_text_outcome : string → str → write_outcome;
  rename_fails : string → string → bool;
  subprocess : list string → gmap string str → process_outcome;
  (** the one-time download of the conversion tool *)
  mihomo_download : download_outcome;
  (** what other processes do to the files between the tasks and the final check *)
  interference : gmap string str → gmap string str;
}.

(** [as_completed]: the futures in the order in which they finish. *)
Definition finishes_first {A} (finish_time : A → nat) : relation A :=
  λ a b, (finish_time a ≤ finish_time b)%nat.

Global Instance finishes_first_dec {A} (finish_time : A → nat) a b :
  Decision (finishes_first finish_time a b) :=
  decide (finish_time a ≤ finish_time b)%nat.

Definition as_completed {A} (finish_time : A → nat) (futures : list A) : list A :=
  merge_sort (finishes_first finish_time) futures.

(** [tenacity.retry(stop=stop_after_attempt(n))]: an attempt that raises is
    followed by the next one; after the last, [RetryError]. *)
Fixpoint retry {A} (attempts : nat) (attempt_number : nat) (f : nat → M A) : M A :=
  match attempts with
  | O => raise RetryError
  | S n => try_except (f attempt_number)
             (λ e, if is_Exception e then retry n (S attempt_number) f else raise e)
  end.

(** [temp_file.write_text(data, encoding='utf-8')]: the file is opened,
    which empties it, and the data is encoded and written.  Data that
    cannot be encoded raises [UnicodeEncodeError] before anything is
    written. *)
Definition write_text (E : env) (p : string) (data : str) : M unit :=
  λ s, match write_text_outcome E p data with
       | WriteFailed None => (Raise OSError, s)
       | Written =>
           if encodable data
           then (Ret tt, State (<[p := data]> (files s)) (log s) (commits s))
           else (Raise UnicodeEncodeError,
                 State (<[p := []]> (files s)) (log s) (commits s))
       | WriteFailed (Some partial) =>
           if encodable data
           then (Raise OSError, State (<[p := partial]> (files s)) (log s) (commits s))
           else (Raise UnicodeEncodeError,
                 State (<[p := []]> (files s)) (log s) (commits s))
       end.

(** [os.rename] semantics shared by [Path.replace] and [shutil.move] (for
    regular files): the source must exist; the target is overwritten. *)
Definition rename (E : env) (src dst : string) : M unit :=
  λ s, match files s !! src with
       | None => (Raise OSError, s)
       | Some data =>
           if rename_fails E src dst then (Raise OSError, s)
           else (Ret tt, State (<[dst := data]> (delete src (files s))) (log s) (commits s))
       end.

(** [subprocess.run(cmd, check=True, capture_output=True, text=True)] *)
Definition subprocess_run (E : env) (cmd : list string) : M unit :=
  λ s, match subprocess E cmd (files s) with
       | NotStarted => (Raise OSError, s)
       | Exited code files' =>
           let s' := State files' (log s) (commits s) in
           if (code =? 0)%Z then (Ret tt, s') else (Raise CalledProcessError, s')
       end.

(** [sys.exit(code)] *)
Definition sys_exit {A} (code : Z) : M A := raise (SystemExit code).

(** The size of [content.encode('utf-8')], when [content] can be encoded. *)
Definition utf8_size (content : str) : option N :=
  if encodable content then
    Some (foldr (λ c n, (if c <? 128 then 1 else if c <? 2048 then 2
                         else if c <? 65536 then 3 else 4) + n) 0 content)
  else None.

(** [len(content.encode('utf-8'))] *)
Definition encoded_size (content : str) : M N :=
  match utf8_size content with
  | Some file_size => ret file_size
  | None => raise UnicodeEncodeError
  end.

(** [response = self.session.get(source.url, ...)],
    [response.raise_for_status()] and [response.text] *)
Definition response_text (r : response) : M str :=
  match r with
  | RespTimeout => raise Timeout
  | RespError => raise RequestException
  | RespText text => ret text
  | RespBroken => raise RuntimeError
  end.

Module RulesetGenerator.

Import TextProcessor.

(** [self.processors], set by [_setup_processors] *)
Definition self_processors : gmap string (str → str) :=
  {[ "remove_comments_and_empty"%string := remove_comments_and_empty;
     "format_pihole"%string := format_pihole;
     "format_yaml_list"%string := format_yaml_list ]}.

(** [source.processors or ["remove_comments_and_empty"]] *)
Definition processors_or_default (source : SourceConfig) : list string :=
  match processors source with
  | Some (p :: ps) => p :: ps
  | Some [] | None => ["remove_comments_and_empty"%string]
  end.

(** The body of the [for processor_name in processors] loop. *)
Definition apply_processor (content : str) (processor_name : string) : M str :=
  match self_processors !! processor_name with
  | Some processor => ret (processor content)
  | None =>
      logger WARNING ("unknown processor: " +:+ processor_name);;
      ret content
  end.

(** [if content and not content.endswith('\n'): content += '\n'] *)
Definition ensure_newline (content : str) : str :=
  if truthy content && negb (endswith content [LF])
  then content ++ [LF] else content.

(** One attempt of [_download_and_process_source]. *)
Definition download_and_process_source_attempt
    (get : string → nat → response) (source : SourceConfig) (index : nat)
    (attempt_number : nat) : M (nat * str) :=
  try_except
    (logger INFO ("downloading source: " +:+ url source);;
     content ← response_text (get (url source) attempt_number);
     (* apply the processors *)
     content ← foldM apply_processor content (processors_or_default source);
     (* make sure it ends with a newline *)
     let content := ensure_newline content in
     file_size ← encoded_size content;
     logger DEBUG "size of processed content";;
     when (file_size =? 0) (logger WARNING ("content is empty: " +:+ url source));;
     ret (index, content))
    (λ e, match e with
          | Timeout =>
              logger WARNING ("download timed out: " +:+ url source);;
              raise e
          | RequestException =>
              logger WARNING ("download failed, network error: " +:+ url source);;
              raise e
          | SystemExit _ => raise e
          | _ =>
              logger WARNING ("error while processing source: " +:+ url source);;
              ret (index, [])
          end).

(** [_download_and_process_source] under its [@retry] decorator. *)
Definition download_and_process_source
    (get : string → nat → response) (source : SourceConfig) (index : nat)
    : M (nat * str) :=
  retry 3 0 (download_and_process_source_attempt get source index).

(** [results[index] = content] for every future, in completion order. *)
Definition collect_results (futures : list (res (nat * str))) : M (gmap nat str) :=
  foldM (λ results future,
           '(index, content) ← result future;
           ret (<[index := content]> results)) ∅ futures.

(** [sorted(results.keys())] *)
Definition sorted_keys (results : gmap nat str) : list nat :=
  merge_sort Nat.le (elements (dom results)).

(** ["".join(results[i] for i in sorted(results.keys()) if results[i].strip())] *)
Definition combined_content (results : gmap nat str) : str :=
  concat (List.filter (λ content, truthy (strip content))
            (omap (λ i, results !! i) (sorted_keys results))).

(** The lines that take part in the merge: [if line.strip()]. *)
Definition nonblank (line : str) : bool := truthy (strip line).

(** [sorted(set(line for line in lines if line.strip()))] *)
Definition unique_lines (lines : list str) : list str :=
  sorted (elements (set_ (List.filter nonblank lines))).

(** The [final_content] of [_write_processed_content]. *)
Definition final_content (lines : list str) (format_type : string) : res str :=
  if String.eqb format_type "yaml" then
    match lines with
    | [] => Raise (ValueError "YAML content must not be empty")
    | header :: rest => Ret (header ++ [LF] ++ join [LF] (unique_lines rest))
    end
  else Ret (join [LF] (unique_lines lines)).

Definition write_processed_content
    (E : env) (content : str) (temp_path : string) (format_type : string) : M unit :=
  if negb (truthy (strip content)) then raise (ValueError "content is empty")
  else
    let lines := splitlines content in
    final_content ← result (final_content lines format_type);
    (* atomic write; [temp_path.with_suffix(temp_path.suffix + '.tmp')] is
       the path with [.tmp] appended *)
    let temp_file := temp_path +:+ ".tmp" in
    try_except
      (write_text E temp_file final_content;;
       rename E temp_file temp_path)
      (λ e, if is_Exception e then
              there ← path_exists temp_file;
              when there (unlink temp_file);;
              raise e
            else raise e).

Definition convert_to_mrs
    (E : env) (name rule_type format_type : string)
    (temp_path final_source_path final_mrs_path : string) : M bool :=
  try_except
    (let mihomo_executable := path_join (work_dir E) "mihomo" in
     there ← path_exists mihomo_executable;
     if negb there then
       logger ERROR "the Mihomo tool does not exist";;
       ret false
     else
       let temp_mrs_path := path_join (work_dir E) (name +:+ ".mrs") in
       logger DEBUG ("converting to MRS: " +:+ temp_path);;
       let cmd := [mihomo_executable; "convert-ruleset"; rule_type;
                   format_type; temp_path; temp_mrs_path]%string in
       subprocess_run E cmd;;
       logger DEBUG "conversion succeeded";;
       (* check the output file *)
       produced ← exists_nonempty temp_mrs_path;
       if negb produced then
         logger ERROR "the converted MRS file does not exist or is empty";;
         ret false
       else
         rename E temp_path final_source_path;;
         rename E temp_mrs_path final_mrs_path;;
         ret true)
    (λ e, match e with
          | SystemExit _ => raise e
          | CalledProcessError => logger ERROR "Mihomo conversion failed";; ret false
          | OSError => logger ERROR "file operation error";; ret false
          | _ => logger ERROR "error during conversion";; ret false
          end).

(** The paths of a task. *)
Definition temp_source_path (E : env) (name : string) (task_config : TaskConfig) : string :=
  path_join (work_dir E) (name +:+ "." +:+ format task_config).

Definition final_source_path (E : env) (name : string) (task_config : TaskConfig) : string :=
  path_join (output_dir E) (name +:+ "." +:+ format task_config).

Definition final_mrs_path (E : env) (name : string) : string :=
  path_join (output_dir E) (name +:+ ".mrs").

(** [process_task], the thread pool block: every source is submitted, and
    the results are collected as the futures complete. *)
Definition fetch_sources (E : env) (name : string) (task_config : TaskConfig)
    : M (gmap nat str) :=
  let sources := sources task_config in
  futures ← submit_all
    (λ '(i, src), download_and_process_source (session_get E name i) src i)
    (as_completed (λ '(i, _), source_finish_time E name i) (imap pair sources));
  collect_results futures.

(** [process_task] up to the staged file: fetch, merge, write. *)
Definition merge_and_stage (E : env) (name : string) (task_config : TaskConfig)
    : M unit :=
  results ← fetch_sources E name task_config;
  (* merge the contents, leaving out the empty ones *)
  let combined_content := combined_content results in
  write_processed_content E combined_content
    (temp_source_path E name task_config) (format task_config).

Definition process_task (E : env) (name : string) (task_config : TaskConfig)
    : M (option (list string)) :=
  logger INFO ("processing rule set: " +:+ name);;
  merge_and_stage E name task_config;;
  (* convert to the MRS format *)
  converted ← convert_to_mrs E name (type task_config) (format task_config)
                 (temp_source_path E name task_config)
                 (final_source_path E name task_config)
                 (final_mrs_path E name);
  if (converted : bool) then
    logger INFO ("rule set done: " +:+ name);;
    ret (Some [final_source_path E name task_config; final_mrs_path E name])
  else ret None.

(** [commit_changes]: the publish step, which handles its own errors. *)
Definition commit_changes : M unit :=
  λ s, (Ret tt, State (files s) (log s) (S (commits s))).

(** The two conditions of [_find_download_url]:
    ["Prerelease-Alpha" in tag_name], with [release.get("tag_name", "")], and
    [binary_pattern in asset_name and asset_name.endswith(file_extension)],
    with [asset.get("name", "")]. *)
Definition prerelease_alpha (release : Release) : bool :=
  contains (default [] (tag_name release)) (lit "Prerelease-Alpha").

Definition asset_matches (mihomo_config : MihomoConfig) (asset : Asset) : bool :=
  contains (default [] (asset_name asset)) (binary_pattern mihomo_config)
  && endswith (default [] (asset_name asset)) (file_extension mihomo_config).

(** The inner loop: [Some r] when it returns [r] from the function, [None]
    when it ends. *)
Fixpoint find_in_assets (mihomo_config : MihomoConfig) (assets : list Asset)
    : option (option str) :=
  match assets with
  | [] => None
  | asset :: assets' =>
      if asset_matches mihomo_config asset then Some (browser_download_url asset)
      else find_in_assets mihomo_config assets'
  end.

Fixpoint find_download_url (releases : list Release) (mihomo_config : MihomoConfig)
    : option str :=
  match releases with
  | [] => None
  | release :: releases' =>
      if negb (prerelease_alpha release) then find_download_url releases' mihomo_config
      else
        match find_in_assets mihomo_config (default [] (assets release)) with
        | Some download_url => download_url
        | None => find_download_url releases' mihomo_config
        end
  end.

(** What a step of the download has done to a file. *)
Definition apply_effect (p : string) (effect : file_effect) : M unit :=
  match effect with
  | Untouched => ret tt
  | Holds data => write_bytes p data
  | Removed => unlink p
  end.

(** [_download_mihomo]: the archive is written to [mihomo.gz], unpacked to
    [mihomo] and removed; whatever exception a step raises ends the process
    with [sys.exit(1)], and the files stay as the steps have left them. *)
Definition download_mihomo (E : env) (mihomo_path : string) : M unit :=
  let gz_path := path_join (work_dir E) "mihomo.gz" in
  try_except
    (match mihomo_download E with
     | Downloaded binary =>
         logger INFO "downloading Mihomo";;
         write_bytes mihomo_path binary;;
         unlink gz_path
     | DownloadFailed e announced gz tool =>
         when announced (logger INFO "downloading Mihomo");;
         apply_effect gz_path gz;;
         apply_effect mihomo_path tool;;
         raise (match e with
                | NetworkError => RequestException
                | FileError => OSError
                | OtherError => RuntimeError
                end)
     end)
    (λ e, match e with
          | Timeout | RequestException =>
              logger ERROR "downloading Mihomo failed, network error";;
              sys_exit 1
          | OSError =>
              logger ERROR "downloading Mihomo failed, file operation error";;
              sys_exit 1
          | SystemExit _ => raise e
          | _ =>
              logger ERROR "downloading Mihomo failed";;
              sys_exit 1
          end).

(** [init_env]: the tool is fetched once. *)
Definition init_env (E : env) : M unit :=
  logger INFO "initialising the environment";;
  let mihomo_path := path_join (work_dir E) "mihomo" in
  there ← path_exists mihomo_path;
  if (there : bool) then logger INFO "the Mihomo tool exists, download skipped"
  else
    download_mihomo E mihomo_path;;
    logger INFO "environment initialised".

Definition validate_generated_files (generated : list string) : M bool :=
  match generated with
  | [] =>
      logger ERROR "no file was generated";;
      ret false
  | _ :: _ =>
      foldM (λ all_ok file_path,
               good ← exists_nonempty file_path;
               if (good : bool) then
                 logger INFO ("file check passed: " +:+ file_path);;
                 ret all_ok
               else
                 logger ERROR ("file check failed, missing or empty: " +:+ file_path);;
                 ret false) true generated
  end.

(** Other processes act on the files between the tasks and the final check. *)
Definition outside_world (E : env) : M unit :=
  λ s, (Ret tt, State (interference E (files s)) (log s) (commits s)).

(** [run], the thread pool block: every task is submitted, and the
    generated files are gathered as the tasks complete. *)
Definition process_tasks (E : env) (tasks : list (string * TaskConfig))
    : M (list string) :=
  futures ← submit_all (λ '(name, config), process_task E name config)
              (as_completed (λ '(name, _), task_finish_time E name) tasks);
  foldM
    (λ all_generated_files future,
       generated_files ← result future;
       match generated_files with
       | Some (f :: fs) => ret (all_generated_files ++ f :: fs)
       | Some [] | None =>
           logger WARNING "a task generated no files";;
           ret all_generated_files
       end) [] futures.

(** [run], the file check and what follows it. *)
Definition check_and_publish (E : env) (all_generated_files : list string) : M unit :=
  outside_world E;;
  valid ← validate_generated_files all_generated_files;
  (if (valid : bool) then
     logger INFO "all files were generated correctly";;
     commit_changes
   else
     logger ERROR "file check failed, Git commit skipped";;
     sys_exit 1);;
  logger INFO "all done".

Definition run (E : env) (tasks : list (string * TaskConfig)) : M unit :=
  init_env E;;
  all_generated_files ← process_tasks E tasks;
  check_and_publish E all_generated_files.

End RulesetGenerator.

(** The exit status of the process whose [main] ends like this. *)
Definition exit_status (r : res unit) : Z :=
  match r with
  | Ret _ => 0
  | Raise (SystemExit code) => code
  | Raise _ => 1
  end.

Import TextProcessor RulesetGenerator.

(** ** Vocabulary of the statements *)

Definition no_linebreak (line : str) : Prop :=
  Forall (λ c, is_linebreak c = false) line.

(** What one entry of a transform chain does to the content, and what the
    whole chain does: the values computed by the loop over the chain. *)
Definition chain_step (content : str) (processor_name : string) : str :=
  match RulesetGenerator.self_processors !! processor_name with
  | Some processor => processor content
  | None => content
  end.

Definition apply_chain (chain : list string) (content : str) : str :=
  foldl chain_step content chain.

Definition known_processor (processor_name : string) : Prop :=
  processor_name ∈ ["remove_comments_and_empty"; "format_pihole"; "format_yaml_list"]%string.

(** The warnings of a chain: one for each unknown name, in order. *)
Definition chain_warnings (chain : list string) : list (level * string) :=
  (λ n, (WARNING, "unknown processor: " +:+ n)) <$>
    List.filter (λ n, bool_decide (¬ known_processor n)) chain.

(** Each line is smaller than every later one: sorted, without repetition. *)
Definition strictly_ascending (lines : list str) : Prop :=
  StronglySorted (λ a b, str_le a b ∧ a ≠ b) lines.

(** A computation that only writes to the log, with a result that does not
    depend on the state. *)
Definition logs_and_returns {A} (m : M A) (r : res A) : Prop :=
  ∀ s, ∃ entries, m s = (r, State (files s) (log s ++ entries) (commits s)).

(** The outcome of the retried call, from the outcomes of the attempts. *)
Fixpoint retry_outcome {A} (attempts attempt_number : nat) (outcome : nat → res A)
    : res A :=
  match attempts with
  | O => Raise RetryError
  | S n =>
      match outcome attempt_number with
      | Ret a => Ret a
      | Raise e =>
          if is_Exception e then retry_outcome n (S attempt_number) outcome
          else Raise e
      end
  end.

(** The value of one attempt of the fetcher, and of the fetcher. *)
Definition attempt_outcome (get : string → nat → response) (source : SourceConfig)
    (index attempt_number : nat) : res (nat * str) :=
  match get (url source) attempt_number with
  | RespTimeout => Raise Timeout
  | RespError => Raise RequestException
  | RespBroken => Ret (index, [])
  | RespText text =>
      let content := RulesetGenerator.ensure_newline
                       (apply_chain (RulesetGenerator.processors_or_default source) text) in
      Ret (index, if encodable content then content else [])
  end.

Definition fetched (get : string → nat → response) (source : SourceConfig)
    (index : nat) : res (nat * str) :=
  retry_outcome 3 0 (attempt_outcome get source index).

(** The value a completed future holds, if it holds one. *)
Definition value {A} (r : res A) : option A :=
  match r with
  | Ret a => Some a
  | Raise _ => None
  end.

(** [collect_results] as a function of what the futures hold. *)
Fixpoint collect (results : gmap nat str) (futures : list (res (nat * str)))
    : res (gmap nat str) :=
  match futures with
  | [] => Ret results
  | Ret (index, content) :: futures' => collect (<[index := content]> results) futures'
  | Raise e :: _ => Raise e
  end.

(** What the futures of the sources of a task hold, in the order of the
    configuration. *)
Definition source_outcomes (E : env) (name : string) (task_config : TaskConfig)
    : list (res (nat * str)) :=
  imap (λ i src, fetched (session_get E name i) src i) (sources task_config).

(** The contents that take part in the merge, concatenated:
    [results[i]] for ascending [i], [if results[i].strip()]. *)
Definition merged (contents : list str) : str :=
  concat (List.filter (λ content, truthy (strip content)) contents).

(** The same surroundings with another completion order of the fetches. *)
Definition with_source_finish_time (finish_time : string → nat → nat) (E : env) : env :=
  Env (work_dir E) (output_dir E) (session_get E) finish_time (task_finish_time E)
      (write_text_outcome E) (rename_fails E) (subprocess E) (mihomo_download E)
      (interference E).

(** The files after a step of the download has done its [effect] at [p]. *)
Definition after_effect (p : string) (effect : file_effect) (fs : gmap string str)
    : gmap string str :=
  match effect with
  | Untouched => fs
  | Holds data => <[p := data]> fs
  | Removed => delete p fs
  end.

(** The same surroundings with other faults of the moves. *)
Definition with_rename_fails (fails : string → string → bool) (E : env) : env :=
  Env (work_dir E) (output_dir E) (session_get E) (source_finish_time E)
      (task_finish_time E) (write_text_outcome E) fails (subprocess E)
      (mihomo_download E) (interference E).

(** An attempt that makes the retry go on: a timeout or a network error. *)
Definition hard_failure (r : response) : bool :=
  match r with
  | RespTimeout | RespError => true
  | RespText _ | RespBroken => false
  end.

(** A content that is empty or ends with a newline. *)
Definition newline_terminated (content : str) : Prop :=
  content = [] ∨ ∃ body, content = body ++ [LF].

(** The exceptions that leave [process_task]: an exhausted fetch, a blank
    merged content, a failed write of the staged file. *)
Definition task_error (e : exn) : Prop :=
  e = RetryError ∨ e = ValueError "content is empty" ∨ e = OSError.

(** ** Concrete surroundings *)

(** A text from its lines, each followed by a newline. *)
Definition text (lines : list string) : str :=
  concat ((λ line, lit line ++ [LF]) <$> lines).

(** A small web: one list with a comment and a duplicate, one that answers
    at the third attempt, one with comments only, two parts of a YAML rule
    set, and a host that never answers. *)
Definition web (u : string) (attempt_number : nat) : response :=
  if String.eqb u "https://a.example/list" then
    RespText (text ["b"; "#c"; "a"; "b"])
  else if String.eqb u "https://b.example/list" then
    if (attempt_number <? 2)%nat then RespError else RespText (text ["z"; "a"])
  else if String.eqb u "https://c.example/comments" then
    RespText (text ["# nothing here"])
  else if String.eqb u "https://y.example/head" then
    RespText (text ["payload:"; "  - 'x'"])
  else if String.eqb u "https://y.example/more" then
    RespText (text ["  - 'x'"; "  - 'a'"; "payload:"])
  else RespTimeout.

(** A conversion tool that writes three bytes to its output path, and one
    that exits with code 1 and writes nothing. *)
Definition tool_converts (cmd : list string) (fs : gmap string str) : process_outcome :=
  match cmd !! 5%nat with
  | Some out => Exited 0 (<[out := [77; 82; 83]]> fs)
  | None => Exited 2 fs
  end.

Definition tool_exits_1 (cmd : list string) (fs : gmap string str) : process_outcome :=
  Exited 1 fs.

Definition surroundings
    (tool : list string → gmap string str → process_outcome)
    (others : gmap string str → gmap string str) : env :=
  {| work_dir := "work"; output_dir := "rules";
     session_get := λ _ _, web;
     source_finish_time := λ _ i, i;
     task_finish_time := λ _, 0%nat;
     write_text_outcome := λ _ _, Written;
     rename_fails := λ _ _, false;
     subprocess := tool;
     mihomo_download := Downloaded [127; 69; 76; 70];
     interference := others |}.

Definition source (u : string) : SourceConfig :=
  {| url := u; format_override := None; processors := None |}.

Definition ads : TaskConfig :=
  {| type := "domain"; format := "text";
     sources := [source "https://a.example/list"; source "https://b.example/list"] |}.

(** The task [ads] with its sources in the other order. *)
Definition ads_reversed : TaskConfig :=
  {| type := "domain"; format := "text";
     sources := [source "https://b.example/list"; source "https://a.example/list"] |}.

Definition comments_only : TaskConfig :=
  {| type := "domain"; format := "text";
     sources := [source "https://c.example/comments"] |}.

Definition half_down : TaskConfig :=
  {| type := "domain"; format := "text";
     sources := [source "https://down.example/list"; source "https://a.example/list"] |}.

Definition rules_yaml : TaskConfig :=
  {| type := "domain"; format := "yaml";
     sources := [source "https://y.example/head"; source "https://y.example/more"] |}.

(** A source with a chain of its own, one entry of which names no transform. *)
Definition piholed : SourceConfig :=
  {| url := "https://a.example/list"; format_override := None;
     processors := Some ["remove_comments_and_empty"; "no_such_processor";
                         "format_pihole"]%string |}.

(** A host that answers with a text that holds a lone surrogate, and a
    source there whose chain names no transform. *)
Definition surrogate_web (u : string) (attempt_number : nat) : response :=
  RespText (lit "a" ++ [55296]).

Definition unknown_only : SourceConfig :=
  {| url := "https://s.example/list"; format_override := None;
     processors := Some ["nope"%string] |}.

(** A source whose chain is given and empty. *)
Definition empty_chain : SourceConfig :=
  {| url := "https://a.example/list"; format_override := None;
     processors := Some [] |}.

Definition ads_contents : list str := [text ["b"; "a"; "b"]; text ["z"; "a"]].

Definition rules_contents : list str :=
  [text ["payload:"; "  - 'x'"]; text ["  - 'x'"; "  - 'a'"; "payload:"]].

Definition empty_disk : state := State ∅ [] 0.

(** A disk on which the conversion tool is installed. *)
Definition installed : state := State {[ "work/mihomo"%string := [127; 69; 76; 70] ]} [] 0.

(** The case analysis of a staged write. *)
Ltac staging_cases :=
  cbv zeta;
  destruct (write_text_outcome _ _ _) as [|[?|]];
  try destruct (encodable _); try destruct (rename_fails _ _ _); simpl.

(** * Properties *)

(** ** Text: lines, joins, trimming *)

Lemma splitlines_linebreak c s :
  is_linebreak c = true →
  splitlines (c :: s) =
    [] :: match s with
          | c' :: s'' => if (c =? CR) && (c' =? LF) then splitlines s'' else splitlines s
          | [] => []
          end.
Proof. intros Hc. simpl. rewrite Hc. by destruct s. Qed.

Lemma splitlines_char c s :
  is_linebreak c = false →
  splitlines (c :: s) =
    match splitlines s with
    | [] => [[c]]
    | line :: lines => (c :: line) :: lines
    end.
Proof. intros Hc. simpl. by rewrite Hc. Qed.

(** Induction that may step over one or two characters, as [splitlines] does. *)
Lemma str_ind2 (P : str → Prop) :
  P [] → (∀ c, P [c]) →
  (∀ c c' s, P s → P (c' :: s) → P (c :: c' :: s)) →
  ∀ s, P s.
Proof.
  intros Hnil Hone Hstep s.
  assert (H : P s ∧ ∀ c, P (c :: s)); [|by destruct H].
  induction s as [|c' s [IH1 IH2]]; [by split|].
  split; [apply IH2|]. intros c. by apply Hstep.
Qed.

Lemma splitlines_no_linebreak s : Forall no_linebreak (splitlines s).
Proof.
  induction s as [|c|c c' s IH1 IH2] using str_ind2.
  - constructor.
  - simpl. destruct (is_linebreak c) eqn:Hc; repeat constructor. done.
  - destruct (is_linebreak c) eqn:Hc.
    + rewrite splitlines_linebreak by done. constructor; [constructor|].
      by destruct (_ && _).
    + rewrite splitlines_char by done.
      destruct (splitlines (c' :: s)) as [|line lines]; [repeat constructor; done|].
      inversion IH2; subst. constructor; [by constructor|done].
Qed.

(** The characters of a line are characters of the text. *)
Lemma elem_of_splitlines_elem (s : str) line x :
  line ∈ splitlines s → x ∈ line → x ∈ s.
Proof.
  revert line.
  induction s as [|c|c c' s IH1 IH2] using str_ind2; intros line Hline Hx.
  - by apply elem_of_nil in Hline.
  - simpl in Hline. destruct (is_linebreak c).
    + apply list_elem_of_singleton in Hline as ->. by apply elem_of_nil in Hx.
    + by apply list_elem_of_singleton in Hline as ->.
  - destruct (is_linebreak c) eqn:Hc.
    + rewrite splitlines_linebreak in Hline by done.
      apply elem_of_cons in Hline as [->|Hline]; [by apply elem_of_nil in Hx|].
      destruct ((c =? CR) && (c' =? LF)).
      * do 2 right. by eapply IH1.
      * right. by eapply IH2.
    + rewrite splitlines_char in Hline by done.
      destruct (splitlines (c' :: s)) as [|l ls].
      * apply list_elem_of_singleton in Hline as ->. 
        apply list_elem_of_singleton in Hx as ->. left.
      * apply elem_of_cons in Hline as [->|Hline].
        -- apply elem_of_cons in Hx as [->|Hx]; [left|]. right.
           eapply IH2; [apply list_elem_of_here|done].
        -- right. eapply IH2; [by right|done].
Qed.

Lemma splitlines_line_LF line rest :
  no_linebreak line → splitlines (line ++ LF :: rest) = line :: splitlines rest.
Proof.
  induction 1 as [|c line Hc _ IH]; simpl app.
  - rewrite splitlines_linebreak by done. by destruct rest.
  - rewrite splitlines_char by done. by rewrite IH.
Qed.

Lemma splitlines_one_line line :
  line ≠ [] → no_linebreak line → splitlines line = [line].
Proof.
  intros Hne Hline. induction Hline as [|c line Hc Hline IH]; [done|].
  rewrite splitlines_char by done.
  destruct line as [|c' line]; [done|]. by rewrite IH.
Qed.

Lemma splitlines_join lines :
  Forall (λ line, line ≠ [] ∧ no_linebreak line) lines →
  splitlines (join [LF] lines) = lines.
Proof.
  induction 1 as [|line lines [Hne Hline] Hlines IH]; [done|].
  destruct lines as [|line' lines].
  - by apply splitlines_one_line.
  - change (join [LF] (line :: line' :: lines))
      with (line ++ LF :: join [LF] (line' :: lines)).
    by rewrite splitlines_line_LF, IH.
Qed.

Lemma truthy_spec s : truthy s = true ↔ s ≠ [].
Proof. by destruct s. Qed.

Lemma lstrip_nil_inv s : lstrip s = [] → Forall (λ c, is_space c = true) s.
Proof.
  induction s as [|c s IH]; simpl; [constructor|].
  destruct (is_space c) eqn:Hc; [|done]. intros. constructor; auto.
Qed.

Lemma strip_nonempty line : truthy (strip line) = true → line ≠ [].
Proof. by destruct line. Qed.

Lemma filter_filter_same {A} (f : A → bool) (l : list A) :
  List.filter f (List.filter f l) = List.filter f l.
Proof.
  induction l as [|x l IH]; [done|]. simpl.
  destruct (f x) eqn:Hx; [|done]. simpl. by rewrite Hx, IH.
Qed.

Lemma Forall_filter_bool {A} (f : A → bool) (P : A → Prop) (l : list A) :
  Forall P l → Forall (λ x, f x = true ∧ P x) (List.filter f l).
Proof.
  induction 1 as [|x l Hx _ IH]; simpl; [constructor|].
  destruct (f x) eqn:Hfx; [by constructor|done].
Qed.

(** ** The transforms *)

Lemma keep_line_nonempty line : keep_line line = true → line ≠ [].
Proof.
  unfold keep_line. intros [H _]%andb_true_iff. by apply strip_nonempty.
Qed.

Lemma keep_line_spec line :
  keep_line line = true ↔ strip line ≠ [] ∧ head (strip line) ≠ Some 35.
Proof.
  unfold keep_line. change (lit "#") with [35].
  rewrite andb_true_iff, negb_true_iff, truthy_spec.
  destruct (strip line) as [|c s]; [intuition congruence|].
  cbn [startswith head]. destruct s; rewrite andb_true_r;
    destruct (N.eqb_spec 35 c); intuition congruence.
Qed.

Lemma splitlines_remove_comments_and_empty text :
  splitlines (remove_comments_and_empty text)
  = List.filter keep_line (splitlines text).
Proof.
  unfold remove_comments_and_empty. apply splitlines_join.
  eapply Forall_impl; [apply Forall_filter_bool, splitlines_no_linebreak|].
  intros line [Hkeep Hline]. split; [by apply keep_line_nonempty|done].
Qed.

(** C9. [remove_comments_and_empty] is idempotent: applied to its own
    output it returns that output.  The lines of its output are the lines
    of the input that are not blank after trimming and whose trimmed form
    does not start with '#'. *)
Theorem remove_comments_and_empty_idempotent (s : str) :
  remove_comments_and_empty (remove_comments_and_empty s)
  = remove_comments_and_empty s
  ∧ splitlines (remove_comments_and_empty s)
    = List.filter keep_line (splitlines s)
  ∧ ∀ line, keep_line line = true
            ↔ strip line ≠ [] ∧ head (strip line) ≠ Some 35.
Proof.
  split; [|split; [apply splitlines_remove_comments_and_empty|apply keep_line_spec]].
  unfold remove_comments_and_empty at 1.
  rewrite splitlines_remove_comments_and_empty.
  by rewrite filter_filter_same.
Qed.

(** ** Transform chains *)

Lemma self_processors_lookup name :
  self_processors !! name =
    if decide (name = "remove_comments_and_empty"%string) then Some remove_comments_and_empty
    else if decide (name = "format_pihole"%string) then Some format_pihole
    else if decide (name = "format_yaml_list"%string) then Some format_yaml_list
    else None.
Proof.
  unfold self_processors.
  repeat case_decide; subst; simplify_map_eq; done.
Qed.

Lemma self_processors_known name :
  is_Some (self_processors !! name) ↔ known_processor name.
Proof.
  rewrite self_processors_lookup. unfold known_processor.
  rewrite !elem_of_cons, elem_of_nil.
  repeat case_decide; subst; split; intros Hx;
    try (by eexists); try (by apply is_Some_None in Hx); intuition.
Qed.

Lemma self_processors_unknown name :
  self_processors !! name = None ↔ ¬ known_processor name.
Proof. rewrite <- self_processors_known, eq_None_not_Some. done. Qed.

Lemma chain_step_unknown content name :
  ¬ known_processor name → chain_step content name = content.
Proof.
  intros H%self_processors_unknown. unfold chain_step. by rewrite H.
Qed.

Lemma apply_processor_run content name s :
  apply_processor content name s
  = (Ret (chain_step content name),
     State (files s) (log s ++ chain_warnings [name]) (commits s)).
Proof.
  unfold apply_processor, chain_step, chain_warnings. simpl.
  destruct (self_processors !! name) as [f|] eqn:Hf.
  - rewrite bool_decide_eq_false_2.
    + unfold ret. simpl. rewrite app_nil_r. by destruct s.
    + rewrite <- self_processors_unknown. congruence.
  - rewrite bool_decide_eq_true_2 by by apply self_processors_unknown.
    done.
Qed.

Lemma apply_processors_run chain content s :
  foldM apply_processor content chain s
  = (Ret (apply_chain chain content),
     State (files s) (log s ++ chain_warnings chain) (commits s)).
Proof.
  revert content s. induction chain as [|name chain IH]; intros content s.
  - unfold chain_warnings. simpl. unfold ret. rewrite app_nil_r. by destruct s.
  - cbn [foldM]. unfold mbind, M_bind, bind. rewrite apply_processor_run.
    rewrite IH. simpl. do 2 f_equal.
    rewrite <- app_assoc. f_equal. unfold chain_warnings. simpl.
    by destruct (bool_decide _).
Qed.

(** ** The monad *)

Lemma bind_eq {A B} (m : M A) (f : A → M B) s :
  (m ≫= f) s = match m s with
               | (Ret a, s') => f a s'
               | (Raise e, s') => (Raise e, s')
               end.
Proof. done. Qed.

(** ** Computations that only log *)

Lemma lar_ret {A} (a : A) : logs_and_returns (ret a) (Ret a).
Proof. intros s. exists []. rewrite app_nil_r. by destruct s. Qed.

Lemma lar_raise {A} (e : exn) : logs_and_returns (raise e : M A) (Raise e).
Proof. intros s. exists []. rewrite app_nil_r. by destruct s. Qed.

Lemma lar_bind {A B} (m : M A) (f : A → M B) a r :
  logs_and_returns m (Ret a) → logs_and_returns (f a) r →
  logs_and_returns (m ≫= f) r.
Proof.
  intros Hm Hf s. destruct (Hm s) as [l1 H1].
  destruct (Hf (State (files s) (log s ++ l1) (commits s))) as [l2 H2].
  exists (l1 ++ l2). unfold mbind, M_bind, bind. rewrite H1, H2. simpl.
  by rewrite app_assoc.
Qed.

Lemma lar_bind_raise {A B} (m : M A) (f : A → M B) e :
  logs_and_returns m (Raise e) → logs_and_returns (m ≫= f) (Raise e).
Proof.
  intros Hm s. destruct (Hm s) as [l1 H1]. exists l1.
  unfold mbind, M_bind, bind. by rewrite H1.
Qed.

Lemma lar_try_ret {A} (m : M A) h a :
  logs_and_returns m (Ret a) → logs_and_returns (try_except m h) (Ret a).
Proof.
  intros Hm s. destruct (Hm s) as [l1 H1]. exists l1.
  unfold try_except. by rewrite H1.
Qed.

Lemma lar_try_raise {A} (m : M A) h e r :
  logs_and_returns m (Raise e) → logs_and_returns (h e) r →
  logs_and_returns (try_except m h) r.
Proof.
  intros Hm Hh s. destruct (Hm s) as [l1 H1].
  destruct (Hh (State (files s) (log s ++ l1) (commits s))) as [l2 H2].
  exists (l1 ++ l2). unfold try_except. rewrite H1, H2. simpl.
  by rewrite app_assoc.
Qed.

Lemma lar_submit {A} (m : M A) r :
  logs_and_returns m r → logs_and_returns (submit m) (Ret r).
Proof.
  intros Hm s. destruct (Hm s) as [l1 H1]. exists l1.
  unfold submit. by rewrite H1.
Qed.

Lemma lar_result {A} (future : res A) : logs_and_returns (result future) future.
Proof. destruct future; [apply lar_ret|apply lar_raise]. Qed.

Lemma lar_retry {A} (f : nat → M A) outcome n k :
  (∀ k, logs_and_returns (f k) (outcome k)) →
  logs_and_returns (retry n k f) (retry_outcome n k outcome).
Proof.
  intros Hf. revert k. induction n as [|n IH]; intros k; simpl.
  - apply lar_raise.
  - specialize (Hf k). destruct (outcome k) as [a|e].
    + by apply lar_try_ret.
    + eapply lar_try_raise; [done|].
      destruct (is_Exception e); [apply IH|apply lar_raise].
Qed.

Lemma lar_submit_all {A B} (f : A → M B) outcome l :
  (∀ a, logs_and_returns (f a) (outcome a)) →
  logs_and_returns (submit_all f l) (Ret (outcome <$> l)).
Proof.
  intros Hf. induction l as [|a l IH]; simpl.
  - apply lar_ret.
  - eapply lar_bind; [apply lar_submit, Hf|].
    eapply lar_bind; [apply IH|]. apply lar_ret.
Qed.

Lemma lar_logger l message : logs_and_returns (logger l message) (Ret tt).
Proof. intros s. by exists [(l, message)]. Qed.

Lemma lar_when b m : logs_and_returns m (Ret tt) → logs_and_returns (when b m) (Ret tt).
Proof. destruct b; [done|intros _; apply lar_ret]. Qed.

Lemma lar_seq {A} l message (m : M A) r :
  logs_and_returns m r → logs_and_returns (logger l message;; m) r.
Proof. intros. eapply lar_bind; [apply lar_logger|done]. Qed.

(** ** The source fetcher *)

Lemma lar_apply_processors chain content :
  logs_and_returns (foldM apply_processor content chain)
    (Ret (apply_chain chain content)).
Proof. intros s. eexists. apply apply_processors_run. Qed.

Lemma encodable_app (a b : str) : encodable (a ++ b) = encodable a && encodable b.
Proof. apply forallb_app. Qed.

Lemma encodable_spec (s : str) :
  encodable s = true ↔ Forall (λ c, is_surrogate c = false) s.
Proof.
  unfold encodable. rewrite forallb_forall, Forall_forall.
  split; intros H c Hc.
  - apply list_elem_of_In, H in Hc. by destruct (is_surrogate c).
  - apply list_elem_of_In, H in Hc. by rewrite Hc.
Qed.

Lemma utf8_size_encodable (content : str) :
  encodable content = true →
  ∃ file_size, utf8_size content = Some file_size ∧ (file_size = 0 ↔ content = []).
Proof.
  intros Henc. unfold utf8_size. rewrite Henc. eexists. split; [done|].
  destruct content as [|c content]; [done|]. split; [|done]. cbn [foldr].
  destruct (c <? 128); [lia|]. destruct (c <? 2048); [lia|].
  destruct (c <? 65536); lia.
Qed.

Lemma utf8_size_surrogate (content : str) :
  encodable content = false → utf8_size content = None.
Proof. intros Henc. unfold utf8_size. by rewrite Henc. Qed.

(** An attempt that receives a text, with its log. *)
Lemma attempt_text_run get source index k text s :
  get (url source) k = RespText text →
  let chain := processors_or_default source in
  let content := ensure_newline (apply_chain chain text) in
  download_and_process_source_attempt get source index k s
  = (Ret (index, if encodable content then content else []),
     State (files s)
       (log s ++ [(INFO, "downloading source: " +:+ url source)]
          ++ chain_warnings chain
          ++ (if encodable content
              then (DEBUG, "size of processed content"%string)
                   :: (if truthy content then []
                       else [(WARNING, "content is empty: " +:+ url source)])
              else [(WARNING, "error while processing source: " +:+ url source)]))
       (commits s)).
Proof.
  intros Hget chain content.
  unfold download_and_process_source_attempt, try_except.
  rewrite bind_eq. simpl. rewrite Hget. rewrite bind_eq. simpl.
  rewrite bind_eq, apply_processors_run. fold chain. cbv zeta. fold content.
  rewrite bind_eq. unfold encoded_size.
  destruct (encodable content) eqn:Henc.
  - destruct (utf8_size_encodable content Henc) as (file_size & -> & Hzero).
    simpl. rewrite bind_eq. simpl. rewrite bind_eq.
    destruct (N.eqb_spec file_size 0) as [Hz|Hz].
    + apply Hzero in Hz. rewrite Hz. simpl. by rewrite <- !app_assoc.
    + destruct content as [|c content']; [by destruct Hz; apply Hzero|].
      simpl. by rewrite <- !app_assoc.
  - rewrite (utf8_size_surrogate content Henc). simpl.
    rewrite bind_eq. simpl. by rewrite <- !app_assoc.
Qed.

Lemma lar_attempt get source index k :
  logs_and_returns (download_and_process_source_attempt get source index k)
    (attempt_outcome get source index k).
Proof.
  intros s. unfold attempt_outcome.
  destruct (get (url source) k) as [| |text|] eqn:Hget.
  - unfold download_and_process_source_attempt, try_except.
    rewrite bind_eq. simpl. rewrite Hget. simpl.
    rewrite bind_eq. simpl. rewrite <- app_assoc. eauto.
  - unfold download_and_process_source_attempt, try_except.
    rewrite bind_eq. simpl. rewrite Hget. simpl.
    rewrite bind_eq. simpl. rewrite <- app_assoc. eauto.
  - rewrite (attempt_text_run get source index k text s Hget). cbv zeta. eauto.
  - unfold download_and_process_source_attempt, try_except.
    rewrite bind_eq. simpl. rewrite Hget. simpl.
    rewrite bind_eq. simpl. rewrite <- app_assoc. eauto.
Qed.

Lemma lar_download_and_process_source get source index :
  logs_and_returns (download_and_process_source get source index)
    (fetched get source index).
Proof. apply lar_retry. intros k. apply lar_attempt. Qed.

(** C8. The transforms of a source's chain are applied in the declared
    order: the fetcher returns the text folded through the chain from its
    first entry to its last, then newline-terminated (and the empty content
    when that result cannot be encoded as UTF-8, which the fetcher treats as
    an error of the source).  An entry that is not in the lookup table
    leaves the content unchanged for that step and only adds a warning to
    the log, and the loop never raises.  A source without a chain gets the
    chain [remove_comments_and_empty]. *)
Theorem transform_chain_declared_order
    (get : string → nat → response) (source : SourceConfig)
    (index k : nat) (text : str) :
  get (url source) k = RespText text →
  let content := ensure_newline (apply_chain (processors_or_default source) text) in
  logs_and_returns (download_and_process_source_attempt get source index k)
    (Ret (index, if encodable content then content else []))
  ∧ (∀ content, apply_chain [] content = content)
  ∧ (∀ name rest content,
       apply_chain (name :: rest) content = apply_chain rest (chain_step content name))
  ∧ (∀ name content,
       chain_step content name =
         if decide (name = "remove_comments_and_empty"%string)
         then remove_comments_and_empty content
         else if decide (name = "format_pihole"%string) then format_pihole content
         else if decide (name = "format_yaml_list"%string) then format_yaml_list content
         else content)
  ∧ (∀ chain content s,
       foldM apply_processor content chain s
       = (Ret (apply_chain chain content),
          State (files s) (log s ++ chain_warnings chain) (commits s)))
  ∧ (∀ name, chain_warnings [name] =
       if decide (known_processor name) then []
       else [(WARNING, "unknown processor: " +:+ name)])
  ∧ (processors source = None →
     processors_or_default source = ["remove_comments_and_empty"%string]).
Proof.
  intros Hget content. repeat split.
  - pose proof (lar_attempt get source index k) as H.
    unfold attempt_outcome in H. by rewrite Hget in H.
  - intros name content'. unfold chain_step.
    rewrite self_processors_lookup. by repeat case_decide.
  - apply apply_processors_run.
  - intros name. unfold chain_warnings. simpl.
    case_decide.
    + by rewrite bool_decide_eq_false_2 by tauto.
    + by rewrite bool_decide_eq_true_2.
  - unfold processors_or_default. by intros ->.
Qed.

(** ** Identity chains *)

(** A joined text is empty or starts with the first character of its first line. *)
Lemma join_head (P : char → Prop) sep lines :
  Forall (λ line, ∃ c rest, line = c :: rest ∧ P c) lines →
  join sep lines = [] ∨ ∃ c rest, join sep lines = c :: rest ∧ P c.
Proof.
  destruct 1 as [|line lines (c & rest & -> & Hc) _]; [by left|].
  right. exists c. destruct lines; simpl; eauto.
Qed.

Lemma remove_comments_and_empty_not_LF text :
  remove_comments_and_empty text ≠ [LF].
Proof.
  intros Hout.
  destruct (join_head (λ c, is_linebreak c = false) [LF]
              (List.filter keep_line (splitlines text)))
    as [Hjoin|(c & rest & Hjoin & Hc)].
  - eapply Forall_impl; [apply Forall_filter_bool, splitlines_no_linebreak|].
    intros [|c line] [Hkeep Hline]; [by apply keep_line_nonempty in Hkeep|].
    exists c, line. by inversion Hline.
  - discriminate (eq_trans (eq_sym Hjoin) Hout).
  - injection (eq_trans (eq_sym Hjoin) Hout) as -> _. done.
Qed.

Lemma add_prefix_suffix_not_LF text c prefix suffix :
  c ≠ LF → add_prefix_suffix text (c :: prefix) suffix ≠ [LF].
Proof.
  intros Hc Hout.
  destruct (join_head (λ c, c ≠ LF) [LF]
              ((λ line, (c :: prefix) ++ line ++ suffix) <$> splitlines text))
    as [Hjoin|(c' & rest & Hjoin & Hc')].
  - apply Forall_fmap, Forall_true. intros line. simpl. eauto.
  - discriminate (eq_trans (eq_sym Hjoin) Hout).
  - injection (eq_trans (eq_sym Hjoin) Hout) as -> _. done.
Qed.

Lemma chain_step_LF content name :
  chain_step content name = [LF] → ¬ known_processor name ∧ content = [LF].
Proof.
  unfold chain_step. destruct (self_processors !! name) as [f|] eqn:Hf.
  - rewrite self_processors_lookup in Hf. intros Hout. exfalso.
    repeat case_decide; simplify_eq.
    + by apply remove_comments_and_empty_not_LF in Hout.
    + by apply add_prefix_suffix_not_LF in Hout.
    + by apply add_prefix_suffix_not_LF in Hout.
  - by apply self_processors_unknown in Hf.
Qed.

Lemma apply_chain_LF chain content :
  apply_chain chain content = [LF] → Forall (λ name, ¬ known_processor name) chain.
Proof.
  revert content. induction chain as [|name chain IH] using rev_ind; intros content.
  - constructor.
  - unfold apply_chain. rewrite foldl_app. simpl.
    intros [Hname Hrest]%chain_step_LF. apply Forall_app. split; [|by repeat constructor].
    by apply (IH content).
Qed.

Lemma apply_chain_unknown chain content :
  Forall (λ name, ¬ known_processor name) chain → apply_chain chain content = content.
Proof.
  induction 1 as [|name chain Hname _ IH]; [done|].
  unfold apply_chain in *. simpl. by rewrite chain_step_unknown.
Qed.

Lemma lar_unique {A} (m : M A) (r1 r2 : res A) :
  logs_and_returns m r1 → logs_and_returns m r2 → r1 = r2.
Proof.
  intros H1 H2. destruct (H1 (State ∅ [] 0)) as [l1 E1].
  destruct (H2 (State ∅ [] 0)) as [l2 E2]. congruence.
Qed.

(** C10. A source whose [processors] is the empty list is fetched with the
    default chain [remove_comments_and_empty], as a source without
    [processors] is: an attempt that receives a text returns the text
    without its blank lines and comments (newline-terminated; the empty
    content if that cannot be encoded).  The loop over the chain of a source
    returns every content unchanged if and only if [processors] is a
    non-empty list of names that are all unknown to the lookup table. *)
Theorem empty_chain_gets_default (source : SourceConfig) :
  (processors source = Some [] ∨ processors source = None →
   processors_or_default source = ["remove_comments_and_empty"%string]
   ∧ ∀ get index k text,
       get (url source) k = RespText text →
       let content := ensure_newline (remove_comments_and_empty text) in
       logs_and_returns (download_and_process_source_attempt get source index k)
         (Ret (index, if encodable content then content else [])))
  ∧ ((∀ content,
        logs_and_returns (foldM apply_processor content (processors_or_default source))
          (Ret content))
     ↔ ∃ name names, processors source = Some (name :: names)
                     ∧ Forall (λ n, ¬ known_processor n) (name :: names))
  ∧ ((∀ content, apply_chain (processors_or_default source) content = content)
     ↔ ∃ name names, processors source = Some (name :: names)
                     ∧ Forall (λ n, ¬ known_processor n) (name :: names)).
Proof.
  assert (Hchain : (∀ content, apply_chain (processors_or_default source) content
                               = content)
            ↔ ∃ name names, processors source = Some (name :: names)
                            ∧ Forall (λ n, ¬ known_processor n) (name :: names)).
  { split.
    - intros Hid. specialize (Hid [LF]). apply apply_chain_LF in Hid.
      unfold processors_or_default in Hid.
      destruct (processors source) as [[|name names]|]; [| by eauto |].
      + apply Forall_inv in Hid. destruct Hid. unfold known_processor. set_solver.
      + apply Forall_inv in Hid. destruct Hid. unfold known_processor. set_solver.
    - intros (name & names & Hsrc & Hunknown) content.
      unfold processors_or_default. rewrite Hsrc. by apply apply_chain_unknown. }
  split; [|split; [|done]].
  - intros Hsrc.
    assert (Hdefault : processors_or_default source
                       = ["remove_comments_and_empty"%string]).
    { unfold processors_or_default. by destruct Hsrc as [-> | ->]. }
    split; [done|]. intros get index k text Hget content.
    pose proof (lar_attempt get source index k) as Hlar.
    unfold attempt_outcome in Hlar. rewrite Hget, Hdefault in Hlar. exact Hlar.
  - rewrite <- Hchain. split.
    + intros Hloop content. specialize (Hloop content).
      pose proof (lar_apply_processors (processors_or_default source) content) as Hrun.
      by injection (lar_unique _ _ _ Hrun Hloop).
    + intros Hid content. rewrite <- (Hid content) at 2. apply lar_apply_processors.
Qed.

(** ** The order of [str] and [sorted(set(...))] *)

Lemma str_leb_refl a : str_leb a a = true.
Proof.
  induction a as [|x a IH]; [done|]. simpl.
  by rewrite N.eqb_refl, IH, orb_true_r.
Qed.

Lemma str_leb_cons x a y b :
  str_leb (x :: a) (y :: b) = true ↔ x < y ∨ x = y ∧ str_leb a b = true.
Proof.
  simpl. rewrite orb_true_iff, andb_true_iff, N.ltb_lt, N.eqb_eq. done.
Qed.

Lemma str_le_refl : Reflexive str_le.
Proof. intros a. apply str_leb_refl. Qed.

Lemma str_le_total : Total str_le.
Proof.
  intros a. unfold str_le. induction a as [|x a IH]; intros [|y b]; auto.
  rewrite !str_leb_cons. destruct (IH b); destruct (N.lt_trichotomy x y) as [?|[?|?]]; auto.
Qed.

Lemma str_le_trans : Transitive str_le.
Proof.
  intros a. unfold str_le. induction a as [|x a IH]; intros [|y b] [|z c]; try done.
  rewrite !str_leb_cons. intros [?|[-> ?]] [?|[-> ?]]; eauto with lia.
Qed.

Lemma str_le_antisymm : AntiSymm (=) str_le.
Proof.
  intros a. unfold str_le. induction a as [|x a IH]; intros [|y b]; try done.
  rewrite !str_leb_cons. intros [?|[-> ?]] [?|[? ?]]; try lia.
  f_equal. by apply IH.
Qed.

#[local] Existing Instances str_le_refl str_le_total str_le_trans str_le_antisymm.

Lemma list_elem_of_filter_bool {A} (f : A → bool) (l : list A) x :
  x ∈ List.filter f l ↔ x ∈ l ∧ f x = true.
Proof. rewrite !list_elem_of_In. apply filter_In. Qed.

Lemma nonblank_spec line : nonblank line = true ↔ strip line ≠ [].
Proof. apply truthy_spec. Qed.

Lemma elem_of_unique_lines lines line :
  line ∈ unique_lines lines ↔ line ∈ lines ∧ strip line ≠ [].
Proof.
  unfold unique_lines, sorted, set_.
  rewrite merge_sort_Permutation, elem_of_elements, elem_of_list_to_set.
  by rewrite list_elem_of_filter_bool, nonblank_spec.
Qed.

Lemma NoDup_unique_lines lines : NoDup (unique_lines lines).
Proof.
  unfold unique_lines, sorted. rewrite merge_sort_Permutation. apply NoDup_elements.
Qed.

Lemma StronglySorted_strict (l : list str) :
  StronglySorted str_le l → NoDup l → strictly_ascending l.
Proof.
  induction 1 as [|a l Hl IH Ha]; intros Hnd; [constructor|].
  apply NoDup_cons in Hnd as [Hnotin Hnd]. constructor; [by apply IH|].
  apply Forall_forall. intros b Hb. split.
  - by eapply Forall_forall in Ha.
  - intros ->. done.
Qed.

Lemma strictly_ascending_sorted (l : list str) :
  strictly_ascending l → StronglySorted str_le l ∧ NoDup l.
Proof.
  induction 1 as [|a l Hl [IH1 IH2] Ha]; [split; constructor|]. split.
  - constructor; [done|]. eapply Forall_impl; [done|]. by intros b [? _].
  - constructor; [|done]. intros Hin. eapply Forall_forall in Ha as [_ ?]; done.
Qed.

(** A set of lines has one strictly ascending enumeration. *)
Lemma strictly_ascending_unique (l1 l2 : list str) :
  strictly_ascending l1 → strictly_ascending l2 →
  (∀ x, x ∈ l1 ↔ x ∈ l2) → l1 = l2.
Proof.
  intros [Hs1 Hn1]%strictly_ascending_sorted [Hs2 Hn2]%strictly_ascending_sorted Heq.
  apply (StronglySorted_unique str_le); [done..|].
  by apply NoDup_Permutation.
Qed.

Lemma strictly_ascending_sorted_enum (e : list str) :
  NoDup e → strictly_ascending (sorted e).
Proof.
  intros He. apply StronglySorted_strict.
  - apply StronglySorted_merge_sort; apply _.
  - unfold sorted. by rewrite merge_sort_Permutation.
Qed.

Lemma strictly_ascending_unique_lines lines :
  strictly_ascending (unique_lines lines).
Proof. apply strictly_ascending_sorted_enum, NoDup_elements. Qed.

(** Whatever the iteration order of the set, [sorted] returns the same list. *)
Lemma sorted_any_enumeration lines (e : list str) :
  NoDup e → (∀ x, x ∈ e ↔ x ∈ lines ∧ strip x ≠ []) →
  sorted e = unique_lines lines.
Proof.
  intros Hnd He. apply strictly_ascending_unique.
  - by apply strictly_ascending_sorted_enum.
  - apply strictly_ascending_unique_lines.
  - intros x. unfold sorted. rewrite merge_sort_Permutation, He.
    by rewrite elem_of_unique_lines.
Qed.

Lemma unique_lines_wellformed content :
  Forall (λ line, line ≠ [] ∧ no_linebreak line) (unique_lines (splitlines content)).
Proof.
  apply Forall_forall. intros line [Hin Hne]%elem_of_unique_lines. split.
  - intros ->. by apply Hne.
  - pose proof (splitlines_no_linebreak content) as H.
    by eapply Forall_forall in H.
Qed.

Lemma unique_lines_sublist_wellformed lines :
  Forall no_linebreak lines →
  Forall (λ line, line ≠ [] ∧ no_linebreak line) (unique_lines lines).
Proof.
  intros H. apply Forall_forall. intros line [Hin Hne]%elem_of_unique_lines. split.
  - intros ->. by apply Hne.
  - by eapply Forall_forall in H.
Qed.

(** ** The staged write *)

Lemma string_length_app (a b : string) :
  String.length (a +:+ b) = (String.length a + String.length b)%nat.
Proof. induction a as [|c a IH]; simpl; [done|]. by rewrite IH. Qed.

Lemma temp_file_fresh (p : string) : p +:+ ".tmp" ≠ p.
Proof.
  intros H%(f_equal String.length). rewrite string_length_app in H. simpl in H. lia.
Qed.

Lemma state_eta s : State (files s) (log s) (commits s) = s.
Proof. by destruct s. Qed.

(** What [_write_processed_content] does, case by case.  Whenever it
    raises after the body has been made, the temporary file is gone. *)
Lemma write_processed_content_run E content p fmt s :
  write_processed_content E content p fmt s =
    if negb (truthy (strip content)) then (Raise (ValueError "content is empty"), s)
    else
      match final_content (splitlines content) fmt with
      | Raise e => (Raise e, s)
      | Ret body =>
          let tmp := p +:+ ".tmp" in
          let failed e := (Raise e, State (delete tmp (files s)) (log s) (commits s)) in
          match write_text_outcome E tmp body with
          | WriteFailed None => failed OSError
          | Written =>
              if encodable body then
                if rename_fails E tmp p then failed OSError
                else
                  (Ret tt,
                   State (<[p := body]> (delete tmp (files s))) (log s) (commits s))
              else failed UnicodeEncodeError
          | WriteFailed (Some partial) =>
              if encodable body then failed OSError else failed UnicodeEncodeError
          end
      end.
Proof.
  unfold write_processed_content.
  destruct (negb (truthy (strip content))); [done|].
  unfold mbind, M_bind, bind.
  destruct (final_content (splitlines content) fmt) as [body|e]; [|done].
  simpl. unfold try_except, bind, write_text, rename, path_exists, when, unlink, raise.
  destruct (write_text_outcome E (p +:+ ".tmp") body) as [|[partial|]]; simpl.
  - destruct (encodable body); simpl.
    + rewrite lookup_insert_eq.
      destruct (rename_fails E (p +:+ ".tmp") p); simpl.
      * rewrite lookup_insert_eq. rewrite bool_decide_eq_true_2 by eauto.
        simpl. by rewrite delete_insert_eq.
      * by rewrite delete_insert_eq.
    + rewrite lookup_insert_eq. rewrite bool_decide_eq_true_2 by eauto.
      simpl. by rewrite delete_insert_eq.
  - destruct (encodable body); simpl;
      rewrite lookup_insert_eq; rewrite bool_decide_eq_true_2 by eauto;
      simpl; by rewrite delete_insert_eq.
  - destruct (files s !! (p +:+ ".tmp")) as [stale|] eqn:Hstale.
    + rewrite bool_decide_eq_true_2 by eauto. done.
    + rewrite bool_decide_eq_false_2 by (by intros [? ?]). simpl.
      rewrite delete_id by done. by rewrite state_eta.
Qed.

Lemma final_content_raises lines format_type e :
  final_content lines format_type = Raise e →
  e = ValueError "YAML content must not be empty".
Proof.
  unfold final_content. destruct (String.eqb _ _); [|done].
  destruct lines; [|done]. by intros [= <-].
Qed.

(** C6. The final body goes to the temporary sibling [<path>.tmp], which is
    then renamed over the staging path.  Writing the temporary file never
    touches the staging path.  When the write or the rename raises, be it an
    error of the disk or a body that cannot be encoded, the error
    propagates and the temporary file is gone; whenever the call raises, the
    staging path holds what it held before; when the call returns, the
    staging path holds the complete new body.  No other file changes. *)
Theorem staged_write_atomic
    (E : env) (content : str) (temp_path format_type : string) (s : state) :
  let temp_file := temp_path +:+ ".tmp" in
  let '(r, s') := write_processed_content E content temp_path format_type s in
  temp_file ≠ temp_path
  ∧ (∀ data, files (write_text E temp_file data s).2 !! temp_path
             = files s !! temp_path)
  ∧ match r with
    | Ret _ =>
        ∃ body, final_content (splitlines content) format_type = Ret body
                ∧ files s' !! temp_path = Some body
                ∧ files s' !! temp_file = None
    | Raise OSError | Raise UnicodeEncodeError =>
        files s' !! temp_path = files s !! temp_path
        ∧ files s' !! temp_file = None
    | Raise _ => s' = s
    end
  ∧ match final_content (splitlines content) format_type with
    | Ret body =>
        if truthy (strip content) then
          match write_text_outcome E temp_file body with
          | Written =>
              if encodable body then
                if rename_fails E temp_file temp_path
                then r = Raise OSError else r = Ret tt
              else r = Raise UnicodeEncodeError
          | WriteFailed None => r = Raise OSError
          | WriteFailed (Some _) =>
              if encodable body then r = Raise OSError
              else r = Raise UnicodeEncodeError
          end
        else r = Raise (ValueError "content is empty")
    | Raise e => ∃ e', r = Raise e'
    end
  ∧ (∀ p, p ≠ temp_path → p ≠ temp_file → files s' !! p = files s !! p)
  ∧ log s' = log s ∧ commits s' = commits s.
Proof.
  intros temp_file. pose proof (temp_file_fresh temp_path) as Hfresh.
  rewrite write_processed_content_run. fold temp_file.
  assert (Hwrite : ∀ data, files (write_text E temp_file data s).2 !! temp_path
                           = files s !! temp_path).
  { intros data. unfold write_text.
    destruct (write_text_outcome E temp_file data) as [|[partial|]];
      try destruct (encodable data); simpl; by rewrite ?lookup_insert_ne. }
  destruct (truthy (strip content)); simpl.
  2: { destruct (final_content _ _); repeat split; eauto. }
  destruct (final_content (splitlines content) format_type) as [body|e] eqn:Hfinal.
  2: { apply final_content_raises in Hfinal as ->. repeat split; eauto. }
  cbv zeta. fold temp_file.
  assert (Hfailed : ∀ p, p ≠ temp_file →
            delete temp_file (files s) !! p = files s !! p).
  { intros p ?. by rewrite lookup_delete_ne. }
  destruct (write_text_outcome E temp_file body) as [|[partial|]];
    try destruct (encodable body); try destruct (rename_fails E temp_file temp_path);
    simpl; repeat split; try done; try (by apply Hfailed);
    try (by rewrite lookup_delete_eq); try (by intros p ? ?; apply Hfailed).
  - exists body. repeat split.
    + by rewrite lookup_insert_eq.
    + by rewrite lookup_insert_ne, lookup_delete_eq.
  - intros p ? ?. by rewrite lookup_insert_ne, lookup_delete_ne.
Qed.

(** ** Fetching the sources of a task *)

Lemma attempt_outcome_cases get source index k :
  (∃ content, attempt_outcome get source index k = Ret (index, content))
  ∨ (∃ e, attempt_outcome get source index k = Raise e ∧ is_Exception e = true).
Proof.
  unfold attempt_outcome. destruct (get (url source) k); eauto.
Qed.

Lemma retry_outcome_cases get source index n k :
  (∃ content, retry_outcome n k (attempt_outcome get source index) = Ret (index, content))
  ∨ retry_outcome n k (attempt_outcome get source index) = Raise RetryError.
Proof.
  revert k. induction n as [|n IH]; intros k; simpl; [by right|].
  destruct (attempt_outcome_cases get source index k) as [[c ->]|(e & -> & ->)]; eauto.
Qed.

(** A fetch holds a content under its own index, or [RetryError]. *)
Lemma fetched_cases get source index :
  (∃ content, fetched get source index = Ret (index, content))
  ∨ fetched get source index = Raise RetryError.
Proof. apply retry_outcome_cases. Qed.

Lemma lar_collect_results futures :
  logs_and_returns (collect_results futures) (collect ∅ futures).
Proof.
  unfold collect_results. generalize (∅ : gmap nat str) as results.
  induction futures as [|[[index content]|e] futures IH]; intros results; simpl.
  - apply lar_ret.
  - eapply lar_bind; [|apply IH].
    eapply lar_bind; [apply lar_ret|]. apply lar_ret.
  - apply lar_bind_raise. apply lar_bind_raise. apply lar_raise.
Qed.

Lemma lar_fetch_sources E name task_config :
  logs_and_returns (fetch_sources E name task_config)
    (collect ∅
       ((λ '(i, src), fetched (session_get E name i) src i) <$>
          as_completed (λ '(i, _), source_finish_time E name i)
            (imap pair (sources task_config)))).
Proof.
  unfold fetch_sources. eapply lar_bind; [|apply lar_collect_results].
  apply lar_submit_all. intros [i src]. apply lar_download_and_process_source.
Qed.

Lemma as_completed_Permutation {A} (finish_time : A → nat) futures :
  as_completed finish_time futures ≡ₚ futures.
Proof. apply merge_sort_Permutation. Qed.

Lemma source_outcomes_fmap E name task_config :
  (λ '(i, src), fetched (session_get E name i) src i) <$> imap pair (sources task_config)
  = source_outcomes E name task_config.
Proof. rewrite fmap_imap. by apply imap_ext. Qed.

Lemma collect_values results (ps : list (nat * str)) :
  collect results (Ret <$> ps)
  = Ret (foldl (λ m p, <[p.1 := p.2]> m) results ps).
Proof.
  revert results. induction ps as [|[i c] ps IH]; intros results; simpl; [done|].
  apply IH.
Qed.

Lemma foldl_insert_list_to_map (results : gmap nat str) (ps : list (nat * str)) :
  NoDup ps.*1 →
  foldl (λ m p, <[p.1 := p.2]> m) results ps = list_to_map ps ∪ results.
Proof.
  revert results. induction ps as [|[i c] ps IH]; intros results Hnd; simpl.
  - by rewrite (left_id_L ∅ (∪)).
  - apply NoDup_cons in Hnd as [Hi Hnd]. rewrite IH by done.
    rewrite <- insert_union_r by by apply not_elem_of_list_to_map_1.
    by rewrite insert_union_l.
Qed.

Lemma fmap_value_Ret {A B} (g : A → res B) (l : list A) :
  Forall (λ x, is_Some (value (g x))) l →
  g <$> l = Ret <$> omap (λ x, value (g x)) l.
Proof.
  induction 1 as [|x l [b Hb] _ IH]; [done|]. rewrite fmap_cons. simpl.
  rewrite Hb. simpl. f_equal; [|exact IH].
  destruct (g x); simpl in Hb; by simplify_eq.
Qed.

Lemma omap_fmap_compose {A B C} (f : B → option C) (g : A → B) (l : list A) :
  omap f (g <$> l) = omap (λ x, f (g x)) l.
Proof.
  induction l as [|x l IH]; [done|]. csimpl. rewrite IH. done.
Qed.

Lemma omap_value_Ret {B} (l : list B) : omap value (Ret <$> l) = l.
Proof. induction l; simpl; by f_equal. Qed.

Lemma imap_pair_keys {A} (l : list A) : (imap pair l).*1 = seq 0 (length l).
Proof.
  rewrite fmap_imap. rewrite (imap_ext _ (λ j _, id j)) by done.
  rewrite imap_seq_0. apply list_fmap_id.
Qed.

Lemma imap_Ret_pair (contents : list str) :
  imap (λ i c, Ret (i, c)) contents = Ret <$> imap pair contents.
Proof. by rewrite fmap_imap. Qed.

(** When every future holds a value, the results are the contents under
    their indices, whatever the completion order. *)
Lemma fetch_sources_contents E name task_config contents :
  source_outcomes E name task_config = imap (λ i c, Ret (i, c)) contents →
  logs_and_returns (fetch_sources E name task_config)
    (Ret (list_to_map (imap pair contents))).
Proof.
  intros Hout. rewrite imap_Ret_pair in Hout.
  pose proof (lar_fetch_sources E name task_config) as Hlar.
  set (g := λ '(i, src), fetched (session_get E name i) src i) in *.
  set (l := as_completed _ _) in *.
  assert (Hl : l ≡ₚ imap pair (sources task_config)) by apply as_completed_Permutation.
  assert (Hall : Forall (λ x, is_Some (value (g x))) l).
  { rewrite Hl. apply Forall_fmap with (f := g) (P := λ r, is_Some (value r)).
    unfold g. rewrite source_outcomes_fmap, Hout.
    apply Forall_fmap, Forall_true. by eexists. }
  assert (Hps : omap (λ x, value (g x)) l ≡ₚ imap pair contents).
  { rewrite Hl. rewrite <- (omap_value_Ret (imap pair contents)), <- Hout.
    unfold g. rewrite <- source_outcomes_fmap.
    by rewrite omap_fmap_compose. }
  rewrite (fmap_value_Ret g l Hall), collect_values in Hlar.
  rewrite foldl_insert_list_to_map in Hlar.
  - rewrite (right_id_L ∅ (∪)) in Hlar.
    rewrite (list_to_map_proper _ (imap pair contents)) in Hlar; [done| |done].
    rewrite Hps, imap_pair_keys. apply NoDup_seq.
  - rewrite Hps, imap_pair_keys. apply NoDup_seq.
Qed.

Lemma Sorted_le_seq j n : Sorted Nat.le (seq j n).
Proof.
  revert j. induction n as [|n IH]; intros j; simpl; [constructor|].
  constructor; [apply IH|]. destruct n; simpl; constructor. lia.
Qed.

Lemma omap_ext_elem {A B} (f g : A → option B) (l : list A) :
  (∀ x, x ∈ l → f x = g x) → omap f l = omap g l.
Proof.
  intros H. apply list_omap_ext. apply Forall2_same_length_lookup. split; [done|].
  intros i x y Hx Hy. simplify_eq. apply H. by eapply list_elem_of_lookup_2.
Qed.

Lemma omap_lookup_seq {A} (l : list A) :
  omap (λ i, l !! i) (seq 0 (length l)) = l.
Proof.
  induction l as [|x l IH] using rev_ind; [done|].
  rewrite length_app, Nat.add_1_r, seq_S, omap_app. simpl. f_equal.
  - rewrite <- IH at 2. apply omap_ext_elem.
    intros i [_ Hi]%elem_of_seq. by rewrite lookup_app_l by lia.
  - rewrite lookup_app_r by lia. by rewrite Nat.sub_diag.
Qed.

Lemma lookup_results (contents : list str) i :
  (list_to_map (imap pair contents) : gmap nat str) !! i = contents !! i.
Proof.
  apply option_eq. intros c. rewrite <- elem_of_list_to_map.
  - rewrite elem_of_lookup_imap. split.
    + by intros (j & c' & [= -> ->] & H).
    + intros H. by exists i, c.
  - rewrite imap_pair_keys. apply NoDup_seq.
Qed.

Lemma sorted_keys_results (contents : list str) :
  sorted_keys (list_to_map (imap pair contents)) = seq 0 (length contents).
Proof.
  unfold sorted_keys. apply (Sorted_unique Nat.le).
  - apply Sorted_merge_sort. apply _.
  - apply Sorted_le_seq.
  - rewrite merge_sort_Permutation, dom_list_to_map_L, imap_pair_keys.
    apply elements_list_to_set, NoDup_seq.
Qed.

(** The merge takes the contents in ascending order of their indices. *)
Lemma combined_content_results (contents : list str) :
  combined_content (list_to_map (imap pair contents)) = merged contents.
Proof.
  unfold combined_content, merged. rewrite sorted_keys_results.
  rewrite (omap_ext_elem _ (λ i, contents !! i)); [by rewrite omap_lookup_seq|].
  intros i _. apply lookup_results.
Qed.

Lemma collect_raises results futures :
  Forall (λ r, is_Some (value r) ∨ r = Raise RetryError) futures →
  Exists (λ r, value r = None) futures →
  collect results futures = Raise RetryError.
Proof.
  intros Hall. revert results.
  induction Hall as [|r futures Hr _ IH]; intros results Hex; [by inversion Hex|].
  destruct Hr as [[[i c] Hv]| ->]; [|done].
  destruct r as [[i' c']|e]; [|done]. simpl.
  apply IH. inversion Hex; simplify_eq. done.
Qed.

(** When the future of some source holds an exception, collecting the
    results raises [RetryError], whatever the completion order. *)
Lemma fetch_sources_raises E name task_config i e :
  source_outcomes E name task_config !! i = Some (Raise e) →
  logs_and_returns (fetch_sources E name task_config) (Raise RetryError).
Proof.
  intros Hi. pose proof (lar_fetch_sources E name task_config) as Hlar.
  set (g := λ '(i, src), fetched (session_get E name i) src i) in *.
  set (l := as_completed _ _) in *.
  assert (Hl : l ≡ₚ imap pair (sources task_config)) by apply as_completed_Permutation.
  rewrite collect_raises in Hlar; [done| |].
  - apply Forall_fmap, Forall_true. intros [j src]. simpl.
    destruct (fetched_cases (session_get E name j) src j) as [[c ->]| ->]; eauto.
  - rewrite Hl. unfold g. rewrite source_outcomes_fmap.
    apply Exists_exists. exists (Raise e). split; [|done].
    by eapply list_elem_of_lookup_2.
Qed.

(** ** What can be encoded *)

Lemma encodable_concat (ls : list str) :
  Forall (λ l, encodable l = true) ls → encodable (concat ls) = true.
Proof.
  induction 1 as [|l ls Hl _ IH]; [done|]. simpl. by rewrite encodable_app, Hl, IH.
Qed.

Lemma encodable_join (lines : list str) :
  Forall (λ l, encodable l = true) lines → encodable (join [LF] lines) = true.
Proof.
  induction 1 as [|line lines Hline Hlines IH]; [done|].
  destruct lines as [|line' lines]; [done|].
  change (join [LF] (line :: line' :: lines))
    with (line ++ [LF] ++ join [LF] (line' :: lines)).
  by rewrite !encodable_app, Hline, IH.
Qed.

Lemma encodable_splitlines (s : str) :
  encodable s = true → Forall (λ line, encodable line = true) (splitlines s).
Proof.
  intros Hs%encodable_spec. apply Forall_forall. intros line Hline.
  apply encodable_spec, Forall_forall. intros x Hx.
  eapply Forall_forall in Hs; [done|]. by eapply elem_of_splitlines_elem.
Qed.

Lemma encodable_unique_lines (lines : list str) :
  Forall (λ line, encodable line = true) lines →
  Forall (λ line, encodable line = true) (unique_lines lines).
Proof.
  intros H. apply Forall_forall. intros line [Hin _]%elem_of_unique_lines.
  by eapply Forall_forall in H.
Qed.

(** The body made of a text that can be encoded can be encoded. *)
Lemma final_content_encodable content fmt body :
  final_content (splitlines content) fmt = Ret body →
  encodable content = true → encodable body = true.
Proof.
  intros Hfinal Hlines%encodable_splitlines. unfold final_content in Hfinal.
  destruct (String.eqb fmt "yaml").
  - destruct (splitlines content) as [|header rest]; [done|].
    injection Hfinal as <-. apply Forall_cons in Hlines as [Hheader Hrest].
    rewrite !encodable_app, Hheader. simpl.
    by apply encodable_join, encodable_unique_lines.
  - injection Hfinal as <-. by apply encodable_join, encodable_unique_lines.
Qed.

(** The content a future holds has passed [encode]. *)
Lemma retry_outcome_encodable get source index n k j content :
  retry_outcome n k (attempt_outcome get source index) = Ret (j, content) →
  encodable content = true.
Proof.
  revert k. induction n as [|n IH]; intros k; simpl; [done|].
  unfold attempt_outcome at 1.
  destruct (get (url source) k) as [| |text|]; simpl; try apply IH.
  - cbv zeta.
    destruct (encodable (ensure_newline (apply_chain (processors_or_default source)
                                           text))) eqn:Henc;
      by intros [= <- <-].
  - by intros [= <- <-].
Qed.

Lemma fetched_encodable get source index j content :
  fetched get source index = Ret (j, content) → encodable content = true.
Proof. apply retry_outcome_encodable. Qed.

Lemma source_contents_encodable E name task_config contents :
  source_outcomes E name task_config = imap (λ i c, Ret (i, c)) contents →
  Forall (λ c, encodable c = true) contents.
Proof.
  intros Hout. apply Forall_lookup. intros i c Hc.
  assert (Hlook : source_outcomes E name task_config !! i = Some (Ret (i, c))).
  { rewrite Hout, list_lookup_imap, Hc. done. }
  unfold source_outcomes in Hlook. rewrite list_lookup_imap in Hlook.
  destruct (sources task_config !! i) as [src|]; [|done].
  injection Hlook as Hlook. by apply fetched_encodable in Hlook.
Qed.

Lemma encodable_merged (contents : list str) :
  Forall (λ c, encodable c = true) contents → encodable (merged contents) = true.
Proof.
  intros H. unfold merged. apply encodable_concat.
  apply Forall_forall. intros c [Hc _]%list_elem_of_filter_bool.
  by eapply Forall_forall in H.
Qed.

(** ** Merging and staging *)

Lemma write_processed_content_files E content p fmt s1 s2 :
  files s1 = files s2 →
  (write_processed_content E content p fmt s1).1
  = (write_processed_content E content p fmt s2).1
  ∧ files (write_processed_content E content p fmt s1).2
    = files (write_processed_content E content p fmt s2).2.
Proof.
  intros Hfiles. rewrite !write_processed_content_run.
  destruct (negb _); [done|]. destruct (final_content _ _) as [body|e]; [|done].
  staging_cases; by rewrite Hfiles.
Qed.

Lemma write_processed_content_staged E content p fmt s :
  let '(r, s') := write_processed_content E content p fmt s in
  match r with
  | Ret _ => ∃ body, final_content (splitlines content) fmt = Ret body
                     ∧ files s' !! p = Some body
  | Raise _ => files s' !! p = files s !! p
  end.
Proof.
  pose proof (temp_file_fresh p) as Hfresh.
  rewrite write_processed_content_run.
  destruct (negb _); [done|]. destruct (final_content _ _) as [body|e]; [|done].
  staging_cases; rewrite ?lookup_delete_ne by done; try done.
  exists body. by rewrite lookup_insert_eq.
Qed.

Lemma merge_and_stage_contents E name task_config contents s :
  source_outcomes E name task_config = imap (λ i c, Ret (i, c)) contents →
  ∃ entries,
    merge_and_stage E name task_config s
    = write_processed_content E (merged contents)
        (temp_source_path E name task_config) (format task_config)
        (State (files s) (log s ++ entries) (commits s)).
Proof.
  intros Hout. destruct (fetch_sources_contents E name task_config contents Hout s)
    as [entries Hfetch].
  exists entries. unfold merge_and_stage, mbind, M_bind, bind.
  rewrite Hfetch. by rewrite combined_content_results.
Qed.

Lemma merge_and_stage_raises E name task_config i e s :
  source_outcomes E name task_config !! i = Some (Raise e) →
  ∃ entries,
    merge_and_stage E name task_config s
    = (Raise RetryError, State (files s) (log s ++ entries) (commits s)).
Proof.
  intros Hi. destruct (fetch_sources_raises E name task_config i e Hi s)
    as [entries Hfetch].
  exists entries. unfold merge_and_stage, mbind, M_bind, bind. by rewrite Hfetch.
Qed.

(** Merging and staging when every future holds a content and the merged
    content is not blank: the body is written and renamed, unless the disk
    fails. *)
Lemma merge_and_stage_run E name task_config contents body s :
  source_outcomes E name task_config = imap (λ i c, Ret (i, c)) contents →
  truthy (strip (merged contents)) = true →
  final_content (splitlines (merged contents)) (format task_config) = Ret body →
  let temp_path := temp_source_path E name task_config in
  let temp_file := temp_path +:+ ".tmp" in
  ∃ entries,
    merge_and_stage E name task_config s
    = match write_text_outcome E temp_file body with
      | Written =>
          if rename_fails E temp_file temp_path
          then (Raise OSError,
                State (delete temp_file (files s)) (log s ++ entries) (commits s))
          else (Ret tt,
                State (<[temp_path := body]> (delete temp_file (files s)))
                  (log s ++ entries) (commits s))
      | WriteFailed _ =>
          (Raise OSError,
           State (delete temp_file (files s)) (log s ++ entries) (commits s))
      end.
Proof.
  intros Hout Hnonblank Hfinal temp_path temp_file.
  destruct (merge_and_stage_contents E name task_config contents s Hout)
    as [entries ->].
  exists entries. rewrite write_processed_content_run, Hnonblank, Hfinal.
  fold temp_path. fold temp_file. cbv zeta. simpl negb. cbv iota.
  assert (encodable body = true) as ->.
  { eapply final_content_encodable; [done|].
    by eapply encodable_merged, source_contents_encodable. }
  by destruct (write_text_outcome E temp_file body) as [|[partial|]].
Qed.

Lemma final_content_plain lines format_type :
  format_type ≠ "yaml"%string →
  final_content lines format_type = Ret (join [LF] (unique_lines lines)).
Proof.
  intros Hfmt. unfold final_content.
  by destruct (String.eqb_spec format_type "yaml").
Qed.

(** C4. For a task whose format is not [yaml] and whose sources were
    fetched with the given contents: the lines of the staged body are the
    lines of the merged contents (the non-blank contents, concatenated in
    ascending order of their indices) that are not blank, each exactly once,
    in ascending lexicographic order; sorting any enumeration of that set of
    lines gives the same body.  Merging and staging returns exactly when the
    merged content is not blank and the disk lets the temporary file be
    written and renamed, and then this body is the staged file; otherwise
    it raises and the staged file is as before.  The outcome and the files
    are the same for every completion order of the fetches. *)
Theorem merged_lines_sorted_unique
    (E : env) (name : string) (task_config : TaskConfig) (contents : list str) :
  format task_config ≠ "yaml"%string →
  source_outcomes E name task_config = imap (λ i c, Ret (i, c)) contents →
  let body := join [LF] (unique_lines (splitlines (merged contents))) in
  let temp_path := temp_source_path E name task_config in
  strictly_ascending (splitlines body)
  ∧ (∀ line, line ∈ splitlines body
             ↔ line ∈ splitlines (merged contents) ∧ strip line ≠ [])
  ∧ (∀ enumeration,
       NoDup enumeration →
       (∀ line, line ∈ enumeration
                ↔ line ∈ splitlines (merged contents) ∧ strip line ≠ []) →
       join [LF] (sorted enumeration) = body)
  ∧ ∀ finish_time s,
      let '(r, s') :=
        merge_and_stage (with_source_finish_time finish_time E) name task_config s in
      r = (merge_and_stage E name task_config s).1
      ∧ files s' = files (merge_and_stage E name task_config s).2
      ∧ r = (if truthy (strip (merged contents)) then
               match write_text_outcome E (temp_path +:+ ".tmp") body with
               | Written =>
                   if rename_fails E (temp_path +:+ ".tmp") temp_path
                   then Raise OSError else Ret tt
               | WriteFailed _ => Raise OSError
               end
             else Raise (ValueError "content is empty"))
      ∧ match r with
        | Ret _ => files s' !! temp_path = Some body
        | Raise _ => files s' !! temp_path = files s !! temp_path
        end.
Proof.
  intros Hfmt Hout body temp_path.
  assert (Hlines : splitlines body = unique_lines (splitlines (merged contents))).
  { apply splitlines_join, unique_lines_wellformed. }
  rewrite Hlines. split; [apply strictly_ascending_unique_lines|].
  split; [intros line; apply elem_of_unique_lines|].
  split; [intros e Hnd He; unfold body; f_equal; by apply sorted_any_enumeration|].
  intros finish_time s.
  pose proof (temp_file_fresh temp_path) as Hfresh.
  assert (Hfinal : final_content (splitlines (merged contents)) (format task_config)
                   = Ret body) by (by apply final_content_plain).
  destruct (truthy (strip (merged contents))) eqn:Hnonblank.
  - destruct (merge_and_stage_run (with_source_finish_time finish_time E)
                name task_config contents body s Hout Hnonblank Hfinal)
      as [entries' ->].
    destruct (merge_and_stage_run E name task_config contents body s
                Hout Hnonblank Hfinal) as [entries ->].
    change (temp_source_path (with_source_finish_time finish_time E) name task_config)
      with temp_path.
    change (temp_source_path E name task_config) with temp_path.
    change (write_text_outcome (with_source_finish_time finish_time E))
      with (write_text_outcome E).
    change (rename_fails (with_source_finish_time finish_time E))
      with (rename_fails E).
    destruct (write_text_outcome E (temp_path +:+ ".tmp") body) as [|partial];
      [destruct (rename_fails E (temp_path +:+ ".tmp") temp_path)|]; simpl;
      repeat split; by rewrite ?lookup_insert_eq, ?lookup_delete_ne.
  - destruct (merge_and_stage_contents (with_source_finish_time finish_time E)
                name task_config contents s Hout) as [entries' ->].
    destruct (merge_and_stage_contents E name task_config contents s Hout)
      as [entries ->].
    rewrite !write_processed_content_run, Hnonblank. simpl. done.
Qed.

Lemma splitlines_nonblank content :
  truthy (strip content) = true → splitlines content ≠ [].
Proof.
  intros H%strip_nonempty. destruct content as [|c content]; [done|].
  simpl. destruct (is_linebreak c); [done|]. by destruct (splitlines content).
Qed.

(** C5. For a task whose format is [yaml], whose sources were fetched with
    the given contents and whose merged content is not blank: the first line
    of the merged content is the first line of the staged body, verbatim,
    whatever the later lines are; the lines after it are the non-blank lines
    after the first line of the merged content, each once, in ascending
    order; and the body is the header, a newline, and those lines joined by
    newlines.  The task stages this body whenever the disk lets the
    temporary file be written and renamed; when it does not, the task raises
    [OSError] and the staged file is as before. *)
Theorem yaml_header_preserved
    (E : env) (name : string) (task_config : TaskConfig) (contents : list str) :
  format task_config = "yaml"%string →
  source_outcomes E name task_config = imap (λ i c, Ret (i, c)) contents →
  truthy (strip (merged contents)) = true →
  let temp_path := temp_source_path E name task_config in
  ∃ header rest,
    splitlines (merged contents) = header :: rest
    ∧ let body := header ++ [LF] ++ join [LF] (unique_lines rest) in
      final_content (splitlines (merged contents)) (format task_config) = Ret body
      ∧ splitlines body = header :: unique_lines rest
      ∧ strictly_ascending (unique_lines rest)
      ∧ (∀ line, line ∈ unique_lines rest ↔ line ∈ rest ∧ strip line ≠ [])
      ∧ ∀ s,
          let '(r, s') := merge_and_stage E name task_config s in
          r = match write_text_outcome E (temp_path +:+ ".tmp") body with
              | Written =>
                  if rename_fails E (temp_path +:+ ".tmp") temp_path
                  then Raise OSError else Ret tt
              | WriteFailed _ => Raise OSError
              end
          ∧ match r with
            | Ret _ => files s' !! temp_path = Some body
            | Raise e =>
                e = OSError ∧ files s' !! temp_path = files s !! temp_path
            end.
Proof.
  intros Hfmt Hout Hnonblank temp_path.
  pose proof (splitlines_no_linebreak (merged contents)) as Hlines.
  destruct (splitlines (merged contents)) as [|header rest] eqn:Hsplit;
    [by apply splitlines_nonblank in Hnonblank|].
  apply Forall_cons in Hlines as [Hheader Hrest].
  exists header, rest. split; [done|]. intros body.
  assert (Hfinal : final_content (header :: rest) (format task_config) = Ret body).
  { unfold final_content. by rewrite Hfmt. }
  split; [done|]. split.
  { unfold body. simpl. rewrite splitlines_line_LF by done.
    f_equal. by apply splitlines_join, unique_lines_sublist_wellformed. }
  split; [apply strictly_ascending_unique_lines|].
  split; [intros line; apply elem_of_unique_lines|].
  intros s. rewrite <- Hsplit in Hfinal.
  destruct (merge_and_stage_run E name task_config contents body s
              Hout Hnonblank Hfinal) as [entries ->].
  pose proof (temp_file_fresh temp_path) as Hfresh.
  fold temp_path.
  destruct (write_text_outcome E (temp_path +:+ ".tmp") body) as [|partial];
    [destruct (rename_fails E (temp_path +:+ ".tmp") temp_path)|]; simpl;
    repeat split; by rewrite ?lookup_insert_eq, ?lookup_delete_ne.
Qed.

(** ** Conversion *)

Lemma convert_to_mrs_failure
    E name rule_type format_type temp_path final_source final_mrs s code files' :
  let mihomo_executable := path_join (work_dir E) "mihomo" in
  let temp_mrs_path := path_join (work_dir E) (name +:+ ".mrs") in
  is_Some (files s !! mihomo_executable) →
  subprocess E [mihomo_executable; "convert-ruleset"%string; rule_type; format_type;
                temp_path; temp_mrs_path] (files s) = Exited code files' →
  code ≠ 0%Z ∨ files' !! temp_mrs_path = None ∨ files' !! temp_mrs_path = Some [] →
  ∃ entries,
    convert_to_mrs E name rule_type format_type temp_path final_source final_mrs s
    = (Ret false, State files' (log s ++ entries) (commits s)).
Proof.
  intros mihomo_executable temp_mrs_path Htool Hsub Hfail.
  unfold convert_to_mrs, try_except, mbind, M_bind, bind, path_exists.
  fold mihomo_executable temp_mrs_path.
  rewrite bool_decide_eq_true_2 by done. simpl.
  unfold subprocess_run. simpl. rewrite Hsub.
  destruct (Z.eqb_spec code 0) as [->|Hcode]; simpl.
  - assert (nonempty_file files' temp_mrs_path = false) as ->.
    { unfold nonempty_file. by destruct Hfail as [?|[->| ->]]. }
    simpl. rewrite <- !app_assoc. eauto.
  - rewrite <- !app_assoc. eauto.
Qed.

Lemma string_app_assoc (a b c : string) : (a +:+ b) +:+ c = a +:+ (b +:+ c).
Proof.
  induction a as [|x a IH]; [done|].
  change (String x ((a +:+ b) +:+ c) = String x (a +:+ (b +:+ c))). by rewrite IH.
Qed.

Lemma path_join_tmp dir file : path_join dir file +:+ ".tmp" = path_join dir (file +:+ ".tmp").
Proof. unfold path_join. by rewrite !string_app_assoc. Qed.

Lemma write_processed_content_frame E content p fmt s q :
  q ≠ p → q ≠ p +:+ ".tmp" →
  files (write_processed_content E content p fmt s).2 !! q = files s !! q.
Proof.
  intros Hp Htmp. rewrite write_processed_content_run.
  destruct (negb _); [done|]. destruct (final_content _ _) as [body|e]; [|done].
  staging_cases; by rewrite ?lookup_insert_ne, ?lookup_delete_ne.
Qed.

(** Merging and staging changes no file but the staged file and its
    temporary sibling, and publishes nothing. *)
Lemma merge_and_stage_frame E name task_config s q :
  q ≠ temp_source_path E name task_config →
  q ≠ temp_source_path E name task_config +:+ ".tmp" →
  files (merge_and_stage E name task_config s).2 !! q = files s !! q.
Proof.
  intros Hp Htmp. unfold merge_and_stage, mbind, M_bind, bind.
  destruct (lar_fetch_sources E name task_config s) as [entries ->].
  destruct (collect _ _) as [results|e]; [|done].
  by rewrite write_processed_content_frame.
Qed.

Lemma merge_and_stage_commits E name task_config s :
  commits (merge_and_stage E name task_config s).2 = commits s.
Proof.
  unfold merge_and_stage, mbind, M_bind, bind.
  destruct (lar_fetch_sources E name task_config s) as [entries ->].
  destruct (collect _ _) as [results|e]; [|done].
  rewrite write_processed_content_run.
  destruct (negb _); [done|]. destruct (final_content _ _) as [body|e]; [|done].
  by staging_cases.
Qed.

(** [process_task] after the staging, from the state the staging left. *)
Lemma process_task_staged E name task_config s s1 :
  (logger INFO ("processing rule set: " +:+ name);;
   merge_and_stage E name task_config) s = (Ret tt, s1) →
  process_task E name task_config s
  = (converted ← convert_to_mrs E name (type task_config) (format task_config)
                   (temp_source_path E name task_config)
                   (final_source_path E name task_config)
                   (final_mrs_path E name);
     if (converted : bool) then
       logger INFO ("rule set done: " +:+ name);;
       ret (Some [final_source_path E name task_config; final_mrs_path E name])
     else ret None) s1.
Proof.
  unfold process_task, mbind, M_bind, bind. simpl.
  destruct (merge_and_stage _ _ _ _) as [[[]|e] s2]; [|done]. by intros [= ->].
Qed.

(** C7. When the task has staged its body and the conversion subprocess
    exits with a non-zero code, or exits with zero but leaves its output
    file missing or empty, the conversion reports failure and moves nothing:
    the files are exactly as the subprocess left them, and the task returns
    [None].  If the subprocess wrote nothing but its own output file, and
    the working directory and the output directory share no path, every
    file of the output directory is as it was before the task. *)
Theorem failed_conversion_moves_nothing
    (E : env) (name : string) (task_config : TaskConfig) (s s1 : state)
    (code : Z) (files' : gmap string str) :
  let mihomo_executable := path_join (work_dir E) "mihomo" in
  let temp_mrs_path := path_join (work_dir E) (name +:+ ".mrs") in
  (logger INFO ("processing rule set: " +:+ name);;
   merge_and_stage E name task_config) s = (Ret tt, s1) →
  is_Some (files s1 !! mihomo_executable) →
  subprocess E [mihomo_executable; "convert-ruleset"%string; type task_config;
                format task_config; temp_source_path E name task_config;
                temp_mrs_path] (files s1) = Exited code files' →
  code ≠ 0%Z ∨ files' !! temp_mrs_path = None ∨ files' !! temp_mrs_path = Some [] →
  (∃ entries,
     convert_to_mrs E name (type task_config) (format task_config)
       (temp_source_path E name task_config)
       (final_source_path E name task_config) (final_mrs_path E name) s1
     = (Ret false, State files' (log s1 ++ entries) (commits s1)))
  ∧ (∃ entries,
       process_task E name task_config s
       = (Ret None, State files' (log s1 ++ entries) (commits s)))
  ∧ ((∀ p, p ≠ temp_mrs_path → files' !! p = files s1 !! p) →
     (∀ a b, path_join (work_dir E) a ≠ path_join (output_dir E) b) →
     ∀ b, files' !! path_join (output_dir E) b
          = files s !! path_join (output_dir E) b).
Proof.
  intros mihomo_executable temp_mrs_path Hstage Htool Hsub Hfail.
  destruct (convert_to_mrs_failure E name (type task_config) (format task_config)
              (temp_source_path E name task_config)
              (final_source_path E name task_config) (final_mrs_path E name)
              s1 code files' Htool Hsub Hfail) as [entries Hconv].
  assert (Hs1 : s1 = (merge_and_stage E name task_config
                        (logger INFO ("processing rule set: " +:+ name) s).2).2).
  { revert Hstage. unfold mbind, M_bind, bind. simpl.
    destruct (merge_and_stage _ _ _ _) as [[[]|e] s2]; [|done]. by intros [= ->]. }
  split; [by exists entries|]. split.
  - exists entries. rewrite (process_task_staged E name task_config s s1 Hstage).
    unfold mbind, M_bind, bind. rewrite Hconv. unfold ret. do 2 f_equal.
    by rewrite Hs1, merge_and_stage_commits.
  - intros Hframe Hdirs b. rewrite Hframe by (apply not_eq_sym, Hdirs).
    rewrite Hs1, merge_and_stage_frame; [done|apply not_eq_sym, Hdirs|].
    unfold temp_source_path. rewrite path_join_tmp. apply not_eq_sym, Hdirs.
Qed.

(** ** The final check *)

Lemma validate_loop (generated : list string) (all_ok : bool) s :
  ∃ entries,
    foldM (λ all_ok file_path,
             good ← exists_nonempty file_path;
             if (good : bool) then
               logger INFO ("file check passed: " +:+ file_path);;
               ret all_ok
             else
               logger ERROR ("file check failed, missing or empty: " +:+ file_path);;
               ret false) all_ok generated s
    = (Ret (all_ok && forallb (nonempty_file (files s)) generated),
       State (files s) (log s ++ entries) (commits s)).
Proof.
  match goal with |- context [foldM ?f] => set (F := f) end.
  assert (HF : ∀ a p s, ∃ entries,
             F a p s = (Ret (a && nonempty_file (files s) p),
                        State (files s) (log s ++ entries) (commits s))).
  { intros a p s0. unfold F, mbind, M_bind, bind, exists_nonempty.
    destruct (nonempty_file (files s0) p); simpl.
    - rewrite andb_true_r. eauto.
    - rewrite andb_false_r. eauto. }
  clearbody F. revert all_ok s.
  induction generated as [|p generated IH]; intros all_ok s.
  - exists []. simpl. unfold ret. by rewrite andb_true_r, app_nil_r, state_eta.
  - cbn [foldM forallb]. rewrite bind_eq.
    destruct (HF all_ok p s) as [entries1 ->].
    destruct (IH (all_ok && nonempty_file (files s) p)
                (State (files s) (log s ++ entries1) (commits s)))
      as [entries2 ->].
    exists (entries1 ++ entries2). simpl. by rewrite app_assoc, andb_assoc.
Qed.

Lemma validate_generated_files_run generated s :
  ∃ entries,
    validate_generated_files generated s
    = (Ret (bool_decide (generated ≠ []) && forallb (nonempty_file (files s)) generated),
       State (files s) (log s ++ entries) (commits s)).
Proof.
  destruct generated as [|p generated].
  - eexists. reflexivity.
  - unfold validate_generated_files. apply validate_loop.
Qed.

(** What the file check decides, and what follows. *)
Lemma check_and_publish_run E generated s :
  let fs := interference E (files s) in
  ∃ entries,
    check_and_publish E generated s
    = if bool_decide (generated ≠ []) && forallb (nonempty_file fs) generated
      then (Ret tt, State fs (log s ++ entries) (S (commits s)))
      else (Raise (SystemExit 1), State fs (log s ++ entries) (commits s)).
Proof.
  intros fs. unfold check_and_publish, mbind, M_bind, bind, outside_world.
  destruct (validate_generated_files_run generated
              (State (interference E (files s)) (log s) (commits s)))
    as [entries ->]. simpl. fold fs.
  destruct (bool_decide _ && forallb _ _); simpl; unfold logger; simpl;
    rewrite <- !app_assoc; eauto.
Qed.

(** ** Blank contents *)

Lemma lstrip_cases s :
  lstrip s = [] ∨ ∃ c t, lstrip s = c :: t ∧ is_space c = false.
Proof.
  induction s as [|c s IH]; simpl; [by left|].
  destruct (is_space c) eqn:Hc; eauto.
Qed.

Lemma strip_nil_iff s : strip s = [] ↔ Forall (λ c, is_space c = true) s.
Proof.
  unfold strip, rstrip. split.
  - intros H. apply (f_equal reverse) in H. rewrite reverse_involutive in H.
    change (reverse []) with (@nil N) in H.
    apply lstrip_nil_inv in H. rewrite Forall_reverse in H.
    destruct (lstrip_cases s) as [Hs|(c & t & Hs & Hc)].
    + by apply lstrip_nil_inv.
    + rewrite Hs in H. apply Forall_inv in H. congruence.
  - intros H. assert (lstrip s = []) as ->; [|done].
    induction H as [|c s Hc _ IH]; simpl; [done|]. by rewrite Hc.
Qed.

Lemma merged_blank contents :
  strip (merged contents) = [] ↔ Forall (λ c, strip c = []) contents.
Proof.
  unfold merged. rewrite strip_nil_iff. split.
  - induction contents as [|c contents IH]; simpl; [constructor|].
    destruct (truthy (strip c)) eqn:Hc; simpl.
    + intros [H _]%Forall_app. apply strip_nil_iff in H. by rewrite H in Hc.
    + intros H. constructor; [by destruct (strip c)|by apply IH].
  - induction 1 as [|c contents Hc _ IH]; simpl; [constructor|].
    by rewrite Hc.
Qed.

(** ** Failing sources *)

Lemma fetched_first_answer get src i :
  fetched get src i =
    match List.find (λ r, negb (hard_failure r)) (get (url src) <$> [0; 1; 2]%nat) with
    | None => Raise RetryError
    | Some (RespText text) =>
        let content := ensure_newline (apply_chain (processors_or_default src) text) in
        Ret (i, if encodable content then content else [])
    | Some _ => Ret (i, [])
    end.
Proof.
  unfold fetched, retry_outcome, attempt_outcome. simpl.
  destruct (get (url src) 0%nat); simpl; try done;
    destruct (get (url src) 1%nat); simpl; try done;
    destruct (get (url src) 2%nat); simpl; done.
Qed.

(** What the future of a source of a task holds is what the fetcher
    returns or raises. *)
Lemma source_outcomes_fetcher E name task_config i src :
  sources task_config !! i = Some src →
  ∃ r, source_outcomes E name task_config !! i = Some r
       ∧ logs_and_returns (download_and_process_source (session_get E name i) src i) r.
Proof.
  intros Hsrc. exists (fetched (session_get E name i) src i). split.
  - unfold source_outcomes. by rewrite list_lookup_imap, Hsrc.
  - apply lar_download_and_process_source.
Qed.

Lemma process_task_raises E name task_config i e s :
  source_outcomes E name task_config !! i = Some (Raise e) →
  ∃ entries,
    process_task E name task_config s
    = (Raise RetryError, State (files s) (log s ++ entries) (commits s)).
Proof.
  intros Hi. unfold process_task. rewrite bind_eq. simpl. rewrite bind_eq.
  destruct (merge_and_stage_raises E name task_config i e
              (State (files s) (log s ++ [(INFO, "processing rule set: " +:+ name)])
                 (commits s)) Hi) as [entries ->].
  simpl. rewrite <- app_assoc. eauto.
Qed.

Lemma merge_and_stage_empty E name task_config contents s :
  source_outcomes E name task_config = imap (λ i c, Ret (i, c)) contents →
  (merge_and_stage E name task_config s).1 = Raise (ValueError "content is empty")
  ↔ Forall (λ c, strip c = []) contents.
Proof.
  intros Hout. destruct (merge_and_stage_contents E name task_config contents s Hout)
    as [entries ->].
  rewrite write_processed_content_run, <- merged_blank.
  destruct (strip (merged contents)) as [|c t] eqn:Hstrip; simpl; [done|].
  split; [|done].
  destruct (final_content _ _) as [body|e] eqn:Hfinal.
  - by staging_cases.
  - apply final_content_raises in Hfinal as ->. done.
Qed.

(** C3 (amended). The fetch of a source takes the first of three attempts
    that is not a timeout or a network error: a processing error there, or
    a processed text that cannot be encoded, gives the empty content (soft
    failure), a text gives the transformed text, and three failed attempts
    raise [RetryError] (hard failure).  The future of each source of a task
    holds what the fetcher returns or raises.  When every future holds a
    content, the task merges the contents that are not blank and goes on to
    stage them, and the merge fails as empty exactly when every content is
    blank.  When the fetch of some source failed hard, the task raises and
    no file changes: nothing is merged or staged. *)
Theorem soft_failures_are_isolated
    (E : env) (name : string) (task_config : TaskConfig) :
  (∀ get src i,
     logs_and_returns (download_and_process_source get src i)
       match List.find (λ r, negb (hard_failure r)) (get (url src) <$> [0; 1; 2]%nat) with
       | None => Raise RetryError
       | Some (RespText text) =>
           let content :=
             ensure_newline (apply_chain (processors_or_default src) text) in
           Ret (i, if encodable content then content else [])
       | Some _ => Ret (i, [])
       end)
  ∧ (∀ i src,
       sources task_config !! i = Some src →
       ∃ r, source_outcomes E name task_config !! i = Some r
            ∧ logs_and_returns
                (download_and_process_source (session_get E name i) src i) r)
  ∧ (∀ contents s,
       source_outcomes E name task_config = imap (λ i c, Ret (i, c)) contents →
       (∃ entries,
          merge_and_stage E name task_config s
          = write_processed_content E (merged contents)
              (temp_source_path E name task_config) (format task_config)
              (State (files s) (log s ++ entries) (commits s)))
       ∧ ((merge_and_stage E name task_config s).1
            = Raise (ValueError "content is empty")
          ↔ Forall (λ c, strip c = []) contents))
  ∧ (∀ i e s,
       source_outcomes E name task_config !! i = Some (Raise e) →
       ∃ entries,
         process_task E name task_config s
         = (Raise RetryError, State (files s) (log s ++ entries) (commits s))).
Proof.
  split; [|split; [|split]].
  - intros get src i. rewrite <- fetched_first_answer.
    apply lar_download_and_process_source.
  - intros i src. apply source_outcomes_fetcher.
  - intros contents s Hout. split.
    + by apply merge_and_stage_contents.
    + by apply merge_and_stage_empty.
  - intros i e s. apply process_task_raises.
Qed.

(** ** The run *)

(** C1 (amended). When the tasks have run and the loop over their results
    has gathered the generated files, the run publishes (calls
    [commit_changes] once and returns, exit status 0) if and only if at
    least one file was generated and every generated file is there and not
    empty at the final check; otherwise it leaves through [sys.exit(1)]
    without publishing. *)
Theorem publishable_iff_all_validate
    (E : env) (tasks : list (string * TaskConfig)) (s s1 : state)
    (generated : list string) :
  (init_env E;; process_tasks E tasks) s = (Ret generated, s1) →
  let fs := interference E (files s1) in
  let r := (run E tasks s).1 in
  let s' := (run E tasks s).2 in
  (r = Ret tt ↔ generated ≠ [] ∧ Forall (λ p, nonempty_file fs p = true) generated)
  ∧ (r = Ret tt ∧ exit_status r = 0%Z ∧ commits s' = S (commits s1)
     ∨ r = Raise (SystemExit 1) ∧ exit_status r = 1%Z ∧ commits s' = commits s1).
Proof.
  intros Htasks fs r s'.
  assert (Hrun : run E tasks s = check_and_publish E generated s1).
  { unfold run. revert Htasks. rewrite !bind_eq.
    destruct (init_env E s) as [[[]|e] s0]; [|done]. rewrite !bind_eq.
    destruct (process_tasks E tasks s0) as [[g|e] s2]; [|done]. by intros [= -> ->]. }
  subst r s'. rewrite Hrun.
  destruct (check_and_publish_run E generated s1) as [entries ->]. fold fs.
  destruct (bool_decide (generated ≠ []) && forallb (nonempty_file fs) generated)
    eqn:Hok; simpl.
  - apply andb_true_iff in Hok as [Hne%bool_decide_eq_true Hall].
    rewrite forallb_forall in Hall. split; [|by left]. split; [|done].
    intros _. split; [done|]. apply Forall_forall. intros p Hp.
    apply Hall. by apply list_elem_of_In.
  - split; [|by right]. split; [done|]. intros [Hne Hall]. exfalso.
    apply andb_false_iff in Hok as [Hok%bool_decide_eq_false|Hok]; [done|].
    assert (forallb (nonempty_file fs) generated = true); [|congruence].
    apply forallb_forall. intros p Hp%list_elem_of_In.
    by eapply Forall_forall in Hall.
Qed.

(** ** The properties on concrete runs *)

Example splitlines_examples :
  splitlines (lit "a" ++ [LF; LF] ++ lit "b" ++ [CR; LF] ++ lit "c" ++ [LF])
    = [lit "a"; []; lit "b"; lit "c"]
  ∧ splitlines [] = []
  ∧ splitlines [LF] = [[]]
  ∧ splitlines (lit "a" ++ [CR]) = [lit "a"]
  ∧ splitlines (lit "a" ++ [LF; CR] ++ lit "b") = [lit "a"; []; lit "b"]
  ∧ splitlines (lit "a" ++ [8232] ++ lit "b" ++ [133]) = [lit "a"; lit "b"].
Proof. vm_compute. repeat split. Qed.

Example strip_examples :
  strip (lit "  a b " ++ [9; 160; LF]) = lit "a b"
  ∧ strip (lit "   " ++ [CR; LF]) = []
  ∧ strip (lit " # c") = lit "# c".
Proof. vm_compute. repeat split. Qed.

Example remove_comments_and_empty_example :
  remove_comments_and_empty (text ["a"; "#c"; ""; "  # d"; " b "])
    = lit "a" ++ [LF] ++ lit " b "
  ∧ format_pihole (text ["a"; "b"]) = lit "  - '+.a'" ++ [LF] ++ lit "  - '+.b'"
  ∧ format_yaml_list (lit "a") = lit "  - 'a'".
Proof. vm_compute. repeat split. Qed.

(** C1, as stated, fails.  The task [ads] generates its two files; another
    process removes the binary before the final check.  The text file still
    validates, so at least one produced artifact is there and not empty, and
    yet the run leaves with status 1 and does not publish. *)
Lemma one_valid_artifact_not_publishable :
  let E := surroundings tool_converts (delete "rules/ads.mrs"%string) in
  let tasks := [("ads"%string, ads)] in
  ((init_env E;; process_tasks E tasks) empty_disk).1
    = Ret ["rules/ads.text"%string; "rules/ads.mrs"%string]
  ∧ nonempty_file (files (run E tasks empty_disk).2) "rules/ads.text" = true
  ∧ (run E tasks empty_disk).1 = Raise (SystemExit 1)
  ∧ exit_status (run E tasks empty_disk).1 = 1%Z
  ∧ commits (run E tasks empty_disk).2 = 0%nat.
Proof. vm_compute. repeat split. Qed.

(** The task [ads] alone, undisturbed: both files validate and the run
    publishes. *)
Lemma publishable_iff_all_validate_witness :
  let E := surroundings tool_converts id in
  let tasks := [("ads"%string, ads)] in
  ((init_env E;; process_tasks E tasks) empty_disk).1
    = Ret ["rules/ads.text"%string; "rules/ads.mrs"%string]
  ∧ (run E tasks empty_disk).1 = Ret tt
  ∧ commits (run E tasks empty_disk).2 = 1%nat.
Proof.
  intros E tasks.
  assert (Htasks : (init_env E;; process_tasks E tasks) empty_disk
                   = (Ret ["rules/ads.text"%string; "rules/ads.mrs"%string],
                      ((init_env E;; process_tasks E tasks) empty_disk).2)).
  { vm_compute. reflexivity. }
  destruct (publishable_iff_all_validate E tasks empty_disk _ _ Htasks) as [Hiff _].
  split; [vm_compute; reflexivity|]. split.
  - apply Hiff. split; [discriminate|]. repeat constructor.
  - vm_compute. reflexivity.
Defined.

(** C2, at a failing input.  A task whose only source holds nothing but
    comments raises [ValueError] out of [process_task] instead of returning
    [None], as does a task with a source that is down ([RetryError]); only a
    failed conversion returns [None].  Run next to the task [ads], which
    generates both of its files, the empty task makes [run] raise before the
    final check: nothing is published. *)
Theorem empty_merge_aborts_run :
  let E := surroundings tool_converts id in
  let tasks := [("ads"%string, ads); ("notes"%string, comments_only)] in
  (process_task E "notes" comments_only installed).1
    = Raise (ValueError "content is empty")
  ∧ (process_task E "half" half_down installed).1 = Raise RetryError
  ∧ (process_task (surroundings tool_exits_1 id) "ads" ads installed).1 = Ret None
  ∧ (process_task E "ads" ads installed).1
    = Ret (Some ["rules/ads.text"%string; "rules/ads.mrs"%string])
  ∧ (run E tasks empty_disk).1 = Raise (ValueError "content is empty")
  ∧ commits (run E tasks empty_disk).2 = 0%nat
  ∧ nonempty_file (files (run E tasks empty_disk).2) "rules/ads.text" = true
  ∧ nonempty_file (files (run E tasks empty_disk).2) "rules/ads.mrs" = true
  ∧ (run E [("ads"%string, ads)] empty_disk).1 = Ret tt.
Proof. vm_compute. repeat split. Qed.

(** C3, as stated, fails.  The first source of [half_down] is down at all
    three attempts and the second returns the lines b, a, b: the task
    raises [RetryError], and nothing is staged or published. *)
Lemma hard_failure_prevents_merge :
  let E := surroundings tool_converts id in
  source_outcomes E "half" half_down
    = [Raise RetryError; Ret (1%nat, text ["b"; "a"; "b"])]
  ∧ (process_task E "half" half_down installed).1 = Raise RetryError
  ∧ files (process_task E "half" half_down installed).2 = files installed.
Proof. vm_compute. repeat split. Qed.

(** The premises of C4 hold for the task [ads], which stages its body. *)
Lemma merged_lines_sorted_unique_witness :
  let E := surroundings tool_converts id in
  format ads ≠ "yaml"%string
  ∧ source_outcomes E "ads" ads = imap (λ i c, Ret (i, c)) ads_contents
  ∧ strictly_ascending
      (splitlines (join [LF] (unique_lines (splitlines (merged ads_contents)))))
  ∧ (merge_and_stage E "ads" ads installed).1 = Ret tt
  ∧ files (merge_and_stage E "ads" ads installed).2 !! temp_source_path E "ads" ads
    = Some (join [LF] (unique_lines (splitlines (merged ads_contents)))).
Proof.
  intros E.
  assert (Hfmt : format ads ≠ "yaml"%string) by (vm_compute; discriminate).
  assert (Hout : source_outcomes E "ads" ads = imap (λ i c, Ret (i, c)) ads_contents)
    by (vm_compute; reflexivity).
  assert (Hret : (merge_and_stage E "ads" ads installed).1 = Ret tt)
    by (vm_compute; reflexivity).
  split; [exact Hfmt|]. split; [exact Hout|].
  destruct (merged_lines_sorted_unique E "ads" ads ads_contents Hfmt Hout)
    as (Hascending & _ & _ & Hstage).
  split; [exact Hascending|]. split; [exact Hret|].
  specialize (Hstage (λ _ i, i) installed).
  destruct (merge_and_stage (with_source_finish_time (λ _ i, i) E) "ads" ads installed)
    as [r s'].
  destruct Hstage as (Hr & Hfiles & _ & Hstaged).
  rewrite Hret in Hr. rewrite Hr in Hstaged. rewrite <- Hfiles. exact Hstaged.
Defined.

(** The task [ads]: the lines a, b, z are staged, whichever fetch completes
    first. *)
Example ads_staged (finish_time : bool) :
  let E := with_source_finish_time
             (λ _ i, if finish_time then i else 10 - i)%nat
             (surroundings tool_converts id) in
  unique_lines (splitlines (merged ads_contents)) = [lit "a"; lit "b"; lit "z"]
  ∧ files (merge_and_stage E "ads" ads installed).2 !! "work/ads.text"%string
    = Some (lit "a" ++ [LF] ++ lit "b" ++ [LF] ++ lit "z").
Proof. destruct finish_time; vm_compute; by split. Qed.

(** The premises of C5 hold for the task [rules_yaml], which stages the
    body with the header first. *)
Lemma yaml_header_preserved_witness :
  let E := surroundings tool_converts id in
  format rules_yaml = "yaml"%string
  ∧ source_outcomes E "rules" rules_yaml = imap (λ i c, Ret (i, c)) rules_contents
  ∧ truthy (strip (merged rules_contents)) = true
  ∧ (merge_and_stage E "rules" rules_yaml installed).1 = Ret tt
  ∧ ∃ header rest,
      splitlines (merged rules_contents) = header :: rest
      ∧ files (merge_and_stage E "rules" rules_yaml installed).2
          !! temp_source_path E "rules" rules_yaml
        = Some (header ++ [LF] ++ join [LF] (unique_lines rest)).
Proof.
  intros E.
  assert (Hfmt : format rules_yaml = "yaml"%string) by reflexivity.
  assert (Hout : source_outcomes E "rules" rules_yaml
                 = imap (λ i c, Ret (i, c)) rules_contents)
    by (vm_compute; reflexivity).
  assert (Hnonblank : truthy (strip (merged rules_contents)) = true)
    by (vm_compute; reflexivity).
  assert (Hret : (merge_and_stage E "rules" rules_yaml installed).1 = Ret tt)
    by (vm_compute; reflexivity).
  split; [exact Hfmt|]. split; [exact Hout|]. split; [exact Hnonblank|].
  split; [exact Hret|].
  destruct (yaml_header_preserved E "rules" rules_yaml rules_contents
              Hfmt Hout Hnonblank) as (header & rest & Hsplit & _ & _ & _ & _ & Hstage).
  exists header, rest. split; [exact Hsplit|].
  specialize (Hstage installed).
  destruct (merge_and_stage E "rules" rules_yaml installed) as [r s'].
  destruct Hstage as [_ Hstaged]. cbn [fst] in Hret. rewrite Hret in Hstaged.
  exact Hstaged.
Defined.

(** The task [rules_yaml]: the header stays first although the same line
    comes again later, and that later line is sorted with the others. *)
Example rules_staged :
  final_content (splitlines (merged rules_contents)) "yaml"
  = Ret (lit "payload:" ++ [LF] ++ lit "  - 'a'" ++ [LF] ++ lit "  - 'x'"
         ++ [LF] ++ lit "payload:")
  ∧ final_content (splitlines (text ["payload:"; "  - 'x'"; "  - 'x'"])) "yaml"
    = Ret (lit "payload:" ++ [LF] ++ lit "  - 'x'").
Proof. vm_compute. by split. Qed.

(** The premises of C7 hold for the task [ads] and a tool that exits with
    code 1: the task returns [None]. *)
Lemma failed_conversion_moves_nothing_witness :
  let E := surroundings tool_exits_1 id in
  let s1 := ((logger INFO "processing rule set: ads";;
              merge_and_stage E "ads" ads) installed).2 in
  ((logger INFO "processing rule set: ads";; merge_and_stage E "ads" ads) installed).1
    = Ret tt
  ∧ is_Some (files s1 !! "work/mihomo"%string)
  ∧ (process_task E "ads" ads installed).1 = Ret None.
Proof.
  intros E s1.
  assert (Hcode : (1 ≠ 0)%Z) by lia.
  assert (Hstage : (logger INFO ("processing rule set: " +:+ "ads");;
                    merge_and_stage E "ads" ads) installed = (Ret tt, s1))
    by (vm_compute; reflexivity).
  assert (Htool : is_Some (files s1 !! path_join (work_dir E) "mihomo"))
    by (eexists; vm_compute; reflexivity).
  assert (Hsub : subprocess E
                   [path_join (work_dir E) "mihomo"; "convert-ruleset"%string;
                    type ads; format ads; temp_source_path E "ads" ads;
                    path_join (work_dir E) ("ads" +:+ ".mrs")] (files s1)
                 = Exited 1 (files s1)) by (vm_compute; reflexivity).
  split; [vm_compute; reflexivity|]. split; [exact Htool|].
  destruct (failed_conversion_moves_nothing E "ads" ads installed s1 1 (files s1)
              Hstage Htool Hsub (or_introl Hcode))
    as (_ & [entries Htask] & _).
  rewrite Htask. reflexivity.
Defined.

(** The premise of C8 holds for the source [piholed], whose chain has an
    unknown entry between two known ones. *)
Lemma transform_chain_declared_order_witness :
  web (url piholed) 0 = RespText (text ["b"; "#c"; "a"; "b"])
  ∧ apply_chain (processors_or_default piholed) (text ["b"; "#c"; "a"; "b"])
    = lit "  - '+.b'" ++ [LF] ++ lit "  - '+.a'" ++ [LF] ++ lit "  - '+.b'"
  ∧ logs_and_returns (download_and_process_source_attempt web piholed 0 0)
      (Ret (0%nat, lit "  - '+.b'" ++ [LF] ++ lit "  - '+.a'" ++ [LF]
                   ++ lit "  - '+.b'" ++ [LF])).
Proof.
  assert (Hget : web (url piholed) 0 = RespText (text ["b"; "#c"; "a"; "b"]))
    by reflexivity.
  split; [exact Hget|]. split; [vm_compute; reflexivity|].
  apply (transform_chain_declared_order web piholed 0 0 _ Hget).
Defined.

(** A source whose chain is given and empty is fetched with the default
    chain; a chain of one unknown name returns the text as it is; and a
    processed text with a lone surrogate gives the empty content. *)
Example chains_on_concrete_sources :
  (download_and_process_source_attempt web empty_chain 0 0 empty_disk).1
    = Ret (0%nat, text ["b"; "a"; "b"])
  ∧ (download_and_process_source_attempt
       (λ _ _, RespText (text ["b"; "#c"])) unknown_only 0 0 empty_disk).1
    = Ret (0%nat, text ["b"; "#c"])
  ∧ (download_and_process_source_attempt surrogate_web unknown_only 0 0 empty_disk).1
    = Ret (0%nat, []).
Proof. vm_compute. repeat split. Qed.

(** * Further properties of the code *)

(** ** The formatting transforms *)

Lemma splitlines_add_prefix_suffix text (prefix suffix : str) :
  no_linebreak prefix → no_linebreak suffix → prefix ≠ [] ∨ suffix ≠ [] →
  splitlines (add_prefix_suffix text prefix suffix)
  = (λ line, prefix ++ line ++ suffix) <$> splitlines text.
Proof.
  intros Hp Hs Hne. unfold add_prefix_suffix. apply splitlines_join.
  apply Forall_fmap. eapply Forall_impl; [apply splitlines_no_linebreak|].
  intros line Hline. simpl. split.
  - destruct Hne as [Hne|Hne]; intros Hnil.
    + by apply app_eq_nil in Hnil as [? _].
    + by apply app_eq_nil in Hnil as [_ [_ ?]%app_eq_nil].
  - apply Forall_app. split; [done|]. by apply Forall_app.
Qed.

Lemma no_linebreak_pihole :
  no_linebreak (lit "  - '+.") ∧ no_linebreak (lit "  - '") ∧ no_linebreak (lit "'").
Proof. repeat split; vm_compute; repeat constructor. Qed.

Lemma splitlines_format_pihole text :
  splitlines (format_pihole text)
  = (λ line, lit "  - '+." ++ line ++ lit "'") <$> splitlines text.
Proof.
  apply splitlines_add_prefix_suffix; [apply no_linebreak_pihole..|by right].
Qed.

Lemma splitlines_format_yaml_list text :
  splitlines (format_yaml_list text)
  = (λ line, lit "  - '" ++ line ++ lit "'") <$> splitlines text.
Proof.
  apply splitlines_add_prefix_suffix; [apply no_linebreak_pihole..|by right].
Qed.

(** X1. [format_pihole] and [format_yaml_list] work line by line: the lines
    of the result are the lines of the text, each between the prefix and
    the quote, in the same order and number; so two texts are formatted
    alike only if they have the same lines. *)
Theorem formatters_wrap_each_line (text : str) :
  splitlines (format_pihole text)
    = (λ line, lit "  - '+." ++ line ++ lit "'") <$> splitlines text
  ∧ splitlines (format_yaml_list text)
    = (λ line, lit "  - '" ++ line ++ lit "'") <$> splitlines text
  ∧ length (splitlines (format_pihole text)) = length (splitlines text)
  ∧ (∀ text', format_pihole text = format_pihole text' →
              splitlines text = splitlines text')
  ∧ (∀ text', format_yaml_list text = format_yaml_list text' →
              splitlines text = splitlines text').
Proof.
  split; [apply splitlines_format_pihole|].
  split; [apply splitlines_format_yaml_list|].
  split; [by rewrite splitlines_format_pihole, length_fmap|]. split.
  - intros text' H%(f_equal splitlines). rewrite !splitlines_format_pihole in H.
    by apply (inj (fmap _)) in H.
  - intros text' H%(f_equal splitlines). rewrite !splitlines_format_yaml_list in H.
    by apply (inj (fmap _)) in H.
Qed.

Lemma lstrip_nonspace c (s : str) : is_space c = false → lstrip (c :: s) = c :: s.
Proof. intros Hc. simpl. by rewrite Hc. Qed.

Lemma strip_nonspace_ends a b (m : str) :
  is_space a = false → is_space b = false → strip (a :: m ++ [b]) = a :: m ++ [b].
Proof.
  intros Ha Hb. unfold strip, rstrip. rewrite lstrip_nonspace by done.
  rewrite app_comm_cons, reverse_snoc, lstrip_nonspace by done.
  by rewrite reverse_cons, reverse_involutive.
Qed.

(** A line between the list prefix and the closing quote is kept. *)
Lemma keep_line_wrapped (prefix line : str) :
  keep_line (32 :: 32 :: 45 :: prefix ++ line ++ lit "'") = true.
Proof.
  unfold keep_line, strip.
  assert (Hl : lstrip (32 :: 32 :: 45 :: prefix ++ line ++ lit "'")
               = 45 :: (prefix ++ line) ++ [39]).
  { change (lit "'") with [39]. simpl. by rewrite <- app_assoc. }
  rewrite Hl. unfold rstrip.
  assert (Hr : reverse (lstrip (reverse (45 :: (prefix ++ line) ++ [39])))
               = 45 :: (prefix ++ line) ++ [39]).
  { rewrite app_comm_cons, reverse_snoc, lstrip_nonspace by done.
    by rewrite reverse_cons, reverse_involutive. }
  rewrite Hr. done.
Qed.

Lemma remove_comments_and_empty_fixpoint (lines : list str) :
  Forall (λ line, keep_line line = true ∧ no_linebreak line) lines →
  remove_comments_and_empty (join [LF] lines) = join [LF] lines.
Proof.
  intros H. unfold remove_comments_and_empty. rewrite splitlines_join.
  - f_equal. induction H as [|line lines [Hk _] _ IH]; [done|].
    simpl. by rewrite Hk, IH.
  - eapply Forall_impl; [done|]. intros line [Hk Hl]. split; [|done].
    by apply keep_line_nonempty.
Qed.

(** X2. Comment removal after formatting removes nothing: every formatted
    line starts with the list dash, so a comment or blank line that was
    formatted first stays in the text.  In the other order the comments and
    blank lines are gone before the remaining lines are formatted. *)
Theorem formatted_text_survives_comment_removal (text : str) :
  remove_comments_and_empty (format_pihole text) = format_pihole text
  ∧ remove_comments_and_empty (format_yaml_list text) = format_yaml_list text
  ∧ splitlines (format_pihole (remove_comments_and_empty text))
    = (λ line, lit "  - '+." ++ line ++ lit "'")
        <$> List.filter keep_line (splitlines text)
  ∧ splitlines (format_yaml_list (remove_comments_and_empty text))
    = (λ line, lit "  - '" ++ line ++ lit "'")
        <$> List.filter keep_line (splitlines text).
Proof.
  destruct no_linebreak_pihole as (Hp & Hy & Hq).
  split; [|split; [|split]].
  - unfold format_pihole, add_prefix_suffix. apply remove_comments_and_empty_fixpoint.
    apply Forall_fmap. eapply Forall_impl; [apply splitlines_no_linebreak|].
    intros line Hline. unfold compose. cbv beta. split.
    + exact (keep_line_wrapped [32; 39; 43; 46] line).
    + apply Forall_app. split; [done|]. by apply Forall_app.
  - unfold format_yaml_list, add_prefix_suffix. apply remove_comments_and_empty_fixpoint.
    apply Forall_fmap. eapply Forall_impl; [apply splitlines_no_linebreak|].
    intros line Hline. unfold compose. cbv beta. split.
    + exact (keep_line_wrapped [32; 39] line).
    + apply Forall_app. split; [done|]. by apply Forall_app.
  - by rewrite splitlines_format_pihole, splitlines_remove_comments_and_empty.
  - by rewrite splitlines_format_yaml_list, splitlines_remove_comments_and_empty.
Qed.

Example comment_survives_when_formatted_first :
  apply_chain ["format_pihole"; "remove_comments_and_empty"]%string (text ["a"; "#c"])
    = lit "  - '+.a'" ++ [LF] ++ lit "  - '+.#c'"
  ∧ apply_chain ["remove_comments_and_empty"; "format_pihole"]%string (text ["a"; "#c"])
    = lit "  - '+.a'".
Proof. vm_compute. by split. Qed.

(** ** What the fetcher returns *)

Lemma endswith_LF (content : str) :
  endswith content [LF] = true ↔ ∃ body, content = body ++ [LF].
Proof.
  unfold endswith. change (reverse [LF]) with [LF]. split.
  - destruct (reverse content) as [|c t] eqn:Hrev; [done|]. cbn [startswith].
    assert (startswith t [] = true) as Ht by (destruct t; reflexivity).
    rewrite Ht.
    rewrite andb_true_r. intros Hc%N.eqb_eq. subst c.
    exists (reverse t). apply (inj reverse). by rewrite reverse_snoc, reverse_involutive, Hrev.
  - intros [body ->]. rewrite reverse_snoc. cbn [startswith].
    rewrite N.eqb_refl. by destruct (reverse body).
Qed.

Lemma ensure_newline_terminated content : newline_terminated (ensure_newline content).
Proof.
  unfold ensure_newline. destruct content as [|c content]; [by left|]. right.
  simpl truthy. rewrite andb_true_l.
  destruct (endswith (c :: content) [LF]) eqn:Hend; simpl.
  - by apply endswith_LF in Hend.
  - by exists (c :: content).
Qed.

Lemma ensure_newline_fixpoint content :
  newline_terminated content → ensure_newline content = content.
Proof.
  intros [->|[body ->]]; [done|]. unfold ensure_newline.
  assert (endswith (body ++ [LF]) [LF] = true) as -> by (apply endswith_LF; eauto).
  by rewrite andb_false_r.
Qed.

Lemma fetched_terminated get src i j content :
  fetched get src i = Ret (j, content) → j = i ∧ newline_terminated content.
Proof.
  rewrite fetched_first_answer.
  destruct (List.find _ _) as [[| |text|]|]; intros [= <- <-]; split; try done;
    try (by left).
  cbv zeta. destruct (encodable _); [apply ensure_newline_terminated|by left].
Qed.

(** X3. What the fetcher leaves in the future of a source: it only writes
    to the log, and it returns a content under the index it was given,
    which is empty or ends with a newline and can be encoded, or it raises
    [RetryError].  The newline is added only when it is missing: a content
    that is empty or ends with one is kept as it is, and the empty content
    stays empty. *)
Theorem fetched_content_is_newline_terminated
    (get : string → nat → response) (src : SourceConfig) (i : nat) :
  (∃ r, logs_and_returns (download_and_process_source get src i) r
        ∧ match r with
          | Ret (j, content) =>
              j = i ∧ newline_terminated content ∧ encodable content = true
          | Raise e => e = RetryError
          end)
  ∧ (∀ content, newline_terminated (ensure_newline content))
  ∧ (∀ content, ensure_newline (ensure_newline content) = ensure_newline content)
  ∧ (∀ content, ensure_newline content = [] ↔ content = [])
  ∧ (∀ content, ensure_newline content = content
                ∨ ensure_newline content = content ++ [LF]).
Proof.
  split; [|split; [|split; [|split]]].
  - exists (fetched get src i). split; [apply lar_download_and_process_source|].
    destruct (fetched get src i) as [[j content]|e] eqn:Hf.
    + pose proof (fetched_encodable _ _ _ _ _ Hf).
      apply fetched_terminated in Hf as [? ?]. done.
    + destruct (fetched_cases get src i) as [[c Hc]|Hc]; congruence.
  - apply ensure_newline_terminated.
  - intros content. apply ensure_newline_fixpoint, ensure_newline_terminated.
  - intros content. unfold ensure_newline. destruct content as [|c content]; [done|].
    split; [|done]. destruct (_ && _); [|done]. by destruct content.
  - intros content. unfold ensure_newline. destruct (_ && _); auto.
Qed.

(** ** The lines of the merged content *)

Lemma splitlines_nonempty (s : str) : s ≠ [] → splitlines s ≠ [].
Proof.
  destruct s as [|c s]; [done|]. intros _. simpl.
  destruct (is_linebreak c); [done|]. by destruct (splitlines s).
Qed.

Lemma splitlines_LF_app (body rest : str) :
  splitlines (body ++ LF :: rest) = splitlines (body ++ [LF]) ++ splitlines rest.
Proof.
  revert rest. induction body as [|c|c c' body IH1 IH2] using str_ind2; intros rest.
  - rewrite !app_nil_l, !splitlines_linebreak by done. by destruct rest.
  - change ([c] ++ LF :: rest) with (c :: LF :: rest).
    change ([c] ++ [LF]) with [c; LF].
    destruct (is_linebreak c) eqn:Hc.
    + rewrite (splitlines_linebreak c) by done.
      rewrite (splitlines_linebreak c [LF]) by done.
      destruct (c =? CR); [done|]. cbn [andb].
      rewrite (splitlines_linebreak LF rest) by done. by destruct rest.
    + rewrite (splitlines_char c (LF :: rest)), (splitlines_char c [LF]) by done.
      rewrite (splitlines_linebreak LF rest) by done. by destruct rest.
  - rewrite <- !app_comm_cons. destruct (is_linebreak c) eqn:Hc.
    + rewrite (splitlines_linebreak c (c' :: body ++ LF :: rest)) by done.
      rewrite (splitlines_linebreak c (c' :: body ++ [LF])) by done.
      rewrite <- app_comm_cons. f_equal.
      destruct ((c =? CR) && (c' =? LF)); [apply IH1|].
      rewrite !app_comm_cons. apply IH2.
    + rewrite (splitlines_char c (c' :: body ++ LF :: rest)) by done.
      rewrite (splitlines_char c (c' :: body ++ [LF])) by done.
      pose proof (IH2 rest) as IH. rewrite <- !app_comm_cons in IH. rewrite IH.
      pose proof (splitlines_nonempty (c' :: body ++ [LF])) as Hne.
      destruct (splitlines (c' :: body ++ [LF])); [by destruct Hne|done].
Qed.

(** After a content that ends with a newline a new line starts. *)
Lemma splitlines_terminated_app (content rest : str) :
  newline_terminated content →
  splitlines (content ++ rest) = splitlines content ++ splitlines rest.
Proof.
  intros [->|[body ->]]; [done|]. rewrite <- app_assoc. apply splitlines_LF_app.
Qed.

Lemma splitlines_merged (contents : list str) :
  Forall newline_terminated contents →
  splitlines (merged contents)
  = concat (splitlines <$> List.filter (λ c, truthy (strip c)) contents).
Proof.
  unfold merged. induction 1 as [|c contents Hc _ IH]; [done|]. simpl.
  destruct (truthy (strip c)); [|done]. simpl.
  by rewrite splitlines_terminated_app, IH.
Qed.

Lemma source_contents_terminated E name task_config contents :
  source_outcomes E name task_config = imap (λ i c, Ret (i, c)) contents →
  Forall newline_terminated contents.
Proof.
  intros Hout. apply Forall_lookup. intros i c Hi.
  assert (Hlook : source_outcomes E name task_config !! i = Some (Ret (i, c))).
  { rewrite Hout, list_lookup_imap, Hi. done. }
  unfold source_outcomes in Hlook. rewrite list_lookup_imap in Hlook.
  destruct (sources task_config !! i) as [src|]; [|done].
  injection Hlook as Hlook. by apply fetched_terminated in Hlook as [_ ?].
Qed.

(** X4. For a task whose futures hold contents, collecting the results
    gives the contents under their indices, and the lines of the combined
    content are the lines of the first non-blank content, then those of the
    second, and so on: as every content ends with a newline, the last line
    of one source and the first line of the next never run together. *)
Theorem merged_lines_are_source_lines
    (E : env) (name : string) (task_config : TaskConfig) (contents : list str) :
  source_outcomes E name task_config = imap (λ i c, Ret (i, c)) contents →
  ∃ results : gmap nat str,
    logs_and_returns (fetch_sources E name task_config) (Ret results)
    ∧ (∀ i, results !! i = contents !! i)
    ∧ combined_content results
      = concat (List.filter (λ c, truthy (strip c)) contents)
    ∧ splitlines (combined_content results)
      = concat (splitlines <$> List.filter (λ c, truthy (strip c)) contents).
Proof.
  intros Hout. exists (list_to_map (imap pair contents)).
  split; [by apply fetch_sources_contents|]. split; [apply lookup_results|].
  rewrite combined_content_results. split; [done|].
  apply splitlines_merged. by eapply source_contents_terminated.
Qed.

Lemma elem_of_concat {A} (x : A) (ls : list (list A)) :
  x ∈ concat ls ↔ ∃ l, x ∈ l ∧ l ∈ ls.
Proof.
  induction ls as [|l ls IH]; simpl.
  - split; [by intros ?%elem_of_nil|by intros (? & _ & ?%elem_of_nil)].
  - rewrite elem_of_app, IH. split.
    + intros [?|(l' & ? & ?)]; [exists l; split; [done|left]|].
      exists l'. split; [done|by right].
    + intros (l' & Hx & [->|?]%elem_of_cons); eauto.
Qed.

Lemma elem_of_splitlines_merged (contents : list str) line :
  Forall newline_terminated contents →
  line ∈ splitlines (merged contents)
  ↔ ∃ content, content ∈ contents ∧ strip content ≠ [] ∧ line ∈ splitlines content.
Proof.
  intros Hterm. rewrite splitlines_merged by done.
  rewrite elem_of_concat. split.
  - intros (lines & Hline & Hlines). apply list_elem_of_fmap in Hlines as (c & -> & Hc).
    apply list_elem_of_filter_bool in Hc as [Hc Hnb]. exists c.
    by rewrite <- truthy_spec.
  - intros (c & Hc & Hnb & Hline). exists (splitlines c). split; [done|].
    apply list_elem_of_fmap. exists c. split; [done|].
    apply list_elem_of_filter_bool. by rewrite truthy_spec.
Qed.

Lemma unique_lines_same_contents (contents1 contents2 : list str) :
  Forall newline_terminated contents1 → Forall newline_terminated contents2 →
  (∀ c, c ∈ contents1 ↔ c ∈ contents2) →
  unique_lines (splitlines (merged contents1))
  = unique_lines (splitlines (merged contents2)).
Proof.
  intros H1 H2 Hsame. apply strictly_ascending_unique;
    [apply strictly_ascending_unique_lines..|].
  intros line. rewrite !elem_of_unique_lines, !elem_of_splitlines_merged by done.
  by setoid_rewrite Hsame.
Qed.

(** Merging and staging for a format other than [yaml]: the outcome, and
    the staged file. *)
Lemma merge_and_stage_plain E name task_config contents s :
  format task_config ≠ "yaml"%string →
  source_outcomes E name task_config = imap (λ i c, Ret (i, c)) contents →
  let body := join [LF] (unique_lines (splitlines (merged contents))) in
  let temp_path := temp_source_path E name task_config in
  let r := (merge_and_stage E name task_config s).1 in
  let s' := (merge_and_stage E name task_config s).2 in
  r = (if truthy (strip (merged contents)) then
         match write_text_outcome E (temp_path +:+ ".tmp") body with
         | Written =>
             if rename_fails E (temp_path +:+ ".tmp") temp_path
             then Raise OSError else Ret tt
         | WriteFailed _ => Raise OSError
         end
       else Raise (ValueError "content is empty"))
  ∧ match r with
    | Ret _ => files s' !! temp_path = Some body
    | Raise _ => files s' !! temp_path = files s !! temp_path
    end.
Proof.
  intros Hfmt Hout body temp_path r s'. subst r s'.
  pose proof (temp_file_fresh temp_path) as Hfresh.
  destruct (truthy (strip (merged contents))) eqn:Hnonblank.
  - destruct (merge_and_stage_run E name task_config contents body s
                Hout Hnonblank (final_content_plain _ _ Hfmt)) as [entries ->].
    fold temp_path.
    destruct (write_text_outcome E (temp_path +:+ ".tmp") body) as [|partial];
      [destruct (rename_fails E (temp_path +:+ ".tmp") temp_path)|]; simpl;
      split; by rewrite ?lookup_insert_eq, ?lookup_delete_ne.
  - destruct (merge_and_stage_contents E name task_config contents s Hout)
      as [entries ->].
    rewrite !write_processed_content_run, Hnonblank. simpl. done.
Qed.

(** X5. For formats other than [yaml] the staged body depends only on which
    contents were fetched: two tasks whose futures hold the same contents,
    in any order and however often, have the same body, and each of them
    stages it whenever the merged content is not blank and its disk lets
    the temporary file be written and renamed. *)
Theorem merged_body_ignores_source_order
    (E1 E2 : env) (name1 name2 : string) (task1 task2 : TaskConfig)
    (contents1 contents2 : list str) :
  source_outcomes E1 name1 task1 = imap (λ i c, Ret (i, c)) contents1 →
  source_outcomes E2 name2 task2 = imap (λ i c, Ret (i, c)) contents2 →
  (∀ c, c ∈ contents1 ↔ c ∈ contents2) →
  format task1 ≠ "yaml"%string → format task2 ≠ "yaml"%string →
  ∃ body,
    final_content (splitlines (merged contents1)) (format task1) = Ret body
    ∧ final_content (splitlines (merged contents2)) (format task2) = Ret body
    ∧ truthy (strip (merged contents1)) = truthy (strip (merged contents2))
    ∧ ∀ (first : bool) s,
        let E := if first then E1 else E2 in
        let name := if first then name1 else name2 in
        let task_config := if first then task1 else task2 in
        let temp_path := temp_source_path E name task_config in
        let r := (merge_and_stage E name task_config s).1 in
        let s' := (merge_and_stage E name task_config s).2 in
        r = (if truthy (strip (merged contents1)) then
               match write_text_outcome E (temp_path +:+ ".tmp") body with
               | Written =>
                   if rename_fails E (temp_path +:+ ".tmp") temp_path
                   then Raise OSError else Ret tt
               | WriteFailed _ => Raise OSError
               end
             else Raise (ValueError "content is empty"))
        ∧ match r with
          | Ret _ => files s' !! temp_path = Some body
          | Raise _ => files s' !! temp_path = files s !! temp_path
          end.
Proof.
  intros Hout1 Hout2 Hsame Hfmt1 Hfmt2.
  exists (join [LF] (unique_lines (splitlines (merged contents1)))).
  assert (Hbody : unique_lines (splitlines (merged contents1))
                  = unique_lines (splitlines (merged contents2))).
  { apply unique_lines_same_contents;
      [by eapply source_contents_terminated..|done]. }
  assert (Hblank : truthy (strip (merged contents1))
                   = truthy (strip (merged contents2))).
  { assert (H : strip (merged contents1) = [] ↔ strip (merged contents2) = []).
    { rewrite !merged_blank, !Forall_forall. by setoid_rewrite Hsame. }
    destruct (strip (merged contents1)), (strip (merged contents2));
      try done; [by destruct H as [-> _]|by destruct H as [_ ->]]. }
  split; [by apply final_content_plain|].
  split; [rewrite Hbody; by apply final_content_plain|]. split; [done|].
  intros [|] s.
  - apply (merge_and_stage_plain E1 name1 task1 contents1 s Hfmt1 Hout1).
  - rewrite Hbody, Hblank.
    apply (merge_and_stage_plain E2 name2 task2 contents2 s Hfmt2 Hout2).
Qed.

(** ** The staged body *)

Lemma linebreak_is_space c : is_linebreak c = true → is_space c = true.
Proof.
  unfold is_linebreak. simpl. rewrite !orb_true_iff, !N.eqb_eq.
  intros H. repeat destruct H as [H|H]; try done; by subst c.
Qed.

(** A character that ends no line is in some line. *)
Lemma elem_of_splitlines_char (s : str) x :
  x ∈ s → is_linebreak x = false → ∃ line, line ∈ splitlines s ∧ x ∈ line.
Proof.
  intros Hx Hnl. revert Hx.
  induction s as [|c|c c' s IH1 IH2] using str_ind2; intros Hx.
  - by apply elem_of_nil in Hx.
  - apply list_elem_of_singleton in Hx as ->. rewrite splitlines_char by done.
    exists [c]. split; apply list_elem_of_here.
  - destruct (is_linebreak c) eqn:Hc.
    + rewrite splitlines_linebreak by done.
      apply elem_of_cons in Hx as [->|Hx]; [congruence|].
      destruct ((c =? CR) && (c' =? LF)) eqn:Hpair.
      * apply andb_true_iff in Hpair as [_ Hc'%N.eqb_eq]. subst c'.
        apply elem_of_cons in Hx as [->|Hx]; [done|].
        destruct (IH1 Hx) as (line & ? & ?). exists line. split; [by right|done].
      * destruct (IH2 Hx) as (line & ? & ?). exists line. split; [by right|done].
    + rewrite splitlines_char by done.
      apply elem_of_cons in Hx as [->|Hx].
      * destruct (splitlines (c' :: s)) as [|l ls].
        -- exists [c]. split; apply list_elem_of_here.
        -- exists (c :: l). split; apply list_elem_of_here.
      * destruct (IH2 Hx) as (line & Hline & Hin).
        destruct (splitlines (c' :: s)) as [|l ls]; [by apply elem_of_nil in Hline|].
        apply elem_of_cons in Hline as [->|Hline].
        -- exists (c :: l). split; [apply list_elem_of_here|by right].
        -- exists line. split; [by right|done].
Qed.

Lemma strip_nonblank_iff (s : str) :
  strip s ≠ [] ↔ ∃ x, x ∈ s ∧ is_space x = false.
Proof.
  rewrite strip_nil_iff. induction s as [|c s IH].
  - split; [by intros []|by intros (? & ?%elem_of_nil & _)].
  - rewrite Forall_cons. split.
    + intros H. destruct (is_space c) eqn:Hc.
      * destruct IH as [IH _]. destruct IH as (x & ? & ?); [tauto|].
        exists x. split; [by right|done].
      * exists c. split; [left|done].
    + intros (x & [->|Hx]%elem_of_cons & Hsp) [Hc Hall]; [congruence|].
      apply IH; eauto.
Qed.

(** A text that is not blank has a line that is not blank. *)
Lemma nonblank_line_exists (content : str) :
  strip content ≠ [] → ∃ line, line ∈ splitlines content ∧ strip line ≠ [].
Proof.
  intros (x & Hx & Hsp)%strip_nonblank_iff.
  destruct (elem_of_splitlines_char content x Hx) as (line & Hline & Hin).
  - destruct (is_linebreak x) eqn:Hnl; [|done].
    apply linebreak_is_space in Hnl. congruence.
  - exists line. split; [done|]. apply strip_nonblank_iff. eauto.
Qed.

Lemma unique_lines_idempotent lines :
  unique_lines (unique_lines lines) = unique_lines lines.
Proof.
  apply strictly_ascending_unique; [apply strictly_ascending_unique_lines..|].
  intros line. rewrite !elem_of_unique_lines. tauto.
Qed.

Lemma splitlines_final_content content fmt body :
  final_content (splitlines content) fmt = Ret body →
  (∀ line, line ∈ splitlines content → strip line ≠ [] → line ∈ splitlines body)
  ∧ final_content (splitlines body) fmt = Ret body.
Proof.
  pose proof (splitlines_no_linebreak content) as Hlines.
  unfold final_content. destruct (String.eqb fmt "yaml").
  - destruct (splitlines content) as [|header rest]; [done|]. intros [= <-].
    apply Forall_cons in Hlines as [Hheader Hrest].
    assert (Hsplit : splitlines (header ++ LF :: join [LF] (unique_lines rest))
                     = header :: unique_lines rest).
    { rewrite splitlines_line_LF by done. f_equal.
      by apply splitlines_join, unique_lines_sublist_wellformed. }
    rewrite Hsplit. split.
    + intros line [->|Hline]%elem_of_cons Hnb; [left|]. right.
      by apply elem_of_unique_lines.
    + by rewrite unique_lines_idempotent.
  - intros [= <-].
    assert (Hsplit : splitlines (join [LF] (unique_lines (splitlines content)))
                     = unique_lines (splitlines content)).
    { by apply splitlines_join, unique_lines_sublist_wellformed. }
    rewrite Hsplit. split.
    + intros line Hline Hnb. by apply elem_of_unique_lines.
    + by rewrite unique_lines_idempotent.
Qed.

(** The body made of a text that is not blank is not blank. *)
Lemma final_content_nonblank content fmt body :
  final_content (splitlines content) fmt = Ret body →
  strip content ≠ [] → strip body ≠ [].
Proof.
  intros [Hlines _]%splitlines_final_content (line & Hline & Hnb)%nonblank_line_exists.
  pose proof (Hlines line Hline Hnb) as Hin.
  apply strip_nonblank_iff in Hnb as (x & Hx & Hsp).
  apply strip_nonblank_iff. exists x. split; [|done].
  by eapply elem_of_splitlines_elem.
Qed.

Lemma write_processed_content_returns E content p fmt s s' :
  write_processed_content E content p fmt s = (Ret tt, s') →
  ∃ body,
    final_content (splitlines content) fmt = Ret body
    ∧ strip content ≠ []
    ∧ write_text_outcome E (p +:+ ".tmp") body = Written
    ∧ encodable body = true
    ∧ rename_fails E (p +:+ ".tmp") p = false
    ∧ s' = State (<[p := body]> (delete (p +:+ ".tmp") (files s))) (log s) (commits s).
Proof.
  rewrite write_processed_content_run.
  destruct (strip content) as [|c t] eqn:Hstrip; [done|]. simpl.
  destruct (final_content _ _) as [body|e]; [|done]. cbv zeta.
  destruct (write_text_outcome _ _ _) as [|[partial|]] eqn:Hw;
    destruct (encodable body) eqn:Henc; try done.
  destruct (rename_fails _ _ _) eqn:Hr; [done|].
  intros [= <-]. exists body. by repeat split.
Qed.

(** X6. Staging is idempotent: when a content has been staged, staging the
    staged body at the same path and in the same format succeeds and leaves
    the state as it is. *)
Theorem restaging_changes_nothing
    (E : env) (content : str) (temp_path format_type : string) (s s' : state) :
  write_processed_content E content temp_path format_type s = (Ret tt, s') →
  ∃ body,
    files s' !! temp_path = Some body
    ∧ final_content (splitlines body) format_type = Ret body
    ∧ write_processed_content E body temp_path format_type s' = (Ret tt, s').
Proof.
  intros (body & Hfinal & Hnb & Hw & Henc & Hr & ->)%write_processed_content_returns.
  pose proof (temp_file_fresh temp_path) as Hfresh.
  exists body. simpl. split; [by rewrite lookup_insert_eq|].
  destruct (splitlines_final_content content format_type body Hfinal) as [_ Hre].
  split; [done|].
  rewrite write_processed_content_run.
  pose proof (final_content_nonblank _ _ _ Hfinal Hnb) as Hnb'.
  destruct (strip body) as [|c t]; [done|]. simpl.
  rewrite Hre. cbv zeta. rewrite Hw, Henc, Hr. do 2 f_equal.
  apply map_eq. intros k.
  destruct (decide (k = temp_path)) as [->|Hk]; [by rewrite !lookup_insert_eq|].
  rewrite !(lookup_insert_ne _ temp_path) by done.
  destruct (decide (k = temp_path +:+ ".tmp")) as [->|Hk'].
  - by rewrite !lookup_delete_eq.
  - by rewrite !lookup_delete_ne, lookup_insert_ne, lookup_delete_ne.
Qed.

(** A text that is not blank has a body, and the body is not empty. *)
Lemma final_content_body content format_type :
  truthy (strip content) = true →
  ∃ body, final_content (splitlines content) format_type = Ret body ∧ body ≠ [].
Proof.
  intros Hnb%truthy_spec.
  destruct (final_content (splitlines content) format_type) as [body|e] eqn:Hfinal.
  - exists body. split; [done|]. intros ->.
    by apply (final_content_nonblank _ _ _ Hfinal Hnb).
  - exfalso. unfold final_content in Hfinal.
    destruct (String.eqb _ _); [|done].
    pose proof (splitlines_nonblank content) as Hne. rewrite truthy_spec in Hne.
    destruct (splitlines content); [by destruct Hne|done].
Qed.

Lemma write_processed_content_outcome E content p fmt s :
  match (write_processed_content E content p fmt s).1 with
  | Ret _ =>
      nonempty_file (files (write_processed_content E content p fmt s).2) p = true
  | Raise e =>
      e = OSError ∨ e = ValueError "content is empty"
      ∨ e = UnicodeEncodeError ∧ encodable content = false
  end.
Proof.
  rewrite write_processed_content_run.
  destruct (truthy (strip content)) eqn:Hnb; simpl; [|by right; left].
  destruct (final_content_body content fmt Hnb) as (body & Hfinal & Hne).
  rewrite Hfinal. cbv zeta.
  assert (Henc : encodable body = false → encodable content = false).
  { intros Hbody. destruct (encodable content) eqn:Hcontent; [|done].
    by rewrite (final_content_encodable _ _ _ Hfinal Hcontent) in Hbody. }
  destruct (write_text_outcome _ _ _) as [|[partial|]];
    try destruct (encodable body); try destruct (rename_fails _ _ _);
    simpl; try (by left); try (right; right; split; [done|by apply Henc]).
  unfold nonempty_file. rewrite lookup_insert_eq. by destruct body.
Qed.

(** X7. [_write_processed_content] ends in one of four ways: it returns,
    and then the staged file is there and not empty; or it raises the
    error of the failed write, the error for blank content, or
    [UnicodeEncodeError], the last only for a content that holds a
    surrogate.  The error for a YAML text without lines is never raised: a
    text that is not blank has a line.  It returns exactly when the content
    is not blank, the body can be encoded and the disk lets the temporary
    file be written and renamed. *)
Theorem staged_file_is_not_empty
    (E : env) (content : str) (temp_path format_type : string) (s : state) :
  let r := (write_processed_content E content temp_path format_type s).1 in
  let s' := (write_processed_content E content temp_path format_type s).2 in
  match r with
  | Ret _ => nonempty_file (files s') temp_path = true
  | Raise e =>
      e = OSError ∨ e = ValueError "content is empty"
      ∨ e = UnicodeEncodeError ∧ encodable content = false
  end
  ∧ (truthy (strip content) = true → ∃ body,
       final_content (splitlines content) format_type = Ret body ∧ body ≠ []
       ∧ (encodable content = true → encodable body = true)
       ∧ (r = Ret tt
          ↔ encodable body = true
            ∧ write_text_outcome E (temp_path +:+ ".tmp") body = Written
            ∧ rename_fails E (temp_path +:+ ".tmp") temp_path = false))
  ∧ (truthy (strip content) = false → r = Raise (ValueError "content is empty")).
Proof.
  intros r s'. subst r s'. split; [apply write_processed_content_outcome|]. split.
  - intros Hnb. destruct (final_content_body content format_type Hnb)
      as (body & Hfinal & Hne).
    exists body. split; [done|]. split; [done|].
    split; [by apply (final_content_encodable _ _ _ Hfinal)|].
    rewrite write_processed_content_run, Hnb, Hfinal. cbv zeta. simpl negb. cbv iota.
    destruct (write_text_outcome _ _ _) as [|[partial|]];
      try destruct (encodable body); try destruct (rename_fails _ _ _);
      simpl; split; try done; intros (? & ? & ?); done.
  - intros Hnb. by rewrite write_processed_content_run, Hnb.
Qed.

(** ** The conversion and the two moves *)

(** [_convert_to_mrs] on every path through it: what it returns and the
    files it leaves. *)
Lemma convert_to_mrs_run
    E name rule_type format_type temp_path final_source final_mrs s :
  let mihomo_executable := path_join (work_dir E) "mihomo" in
  let temp_mrs_path := path_join (work_dir E) (name +:+ ".mrs") in
  let cmd := [mihomo_executable; "convert-ruleset"%string; rule_type; format_type;
              temp_path; temp_mrs_path] in
  ∃ entries,
    convert_to_mrs E name rule_type format_type temp_path final_source final_mrs s
    = let '(converted, fs) :=
        match files s !! mihomo_executable with
        | None => (false, files s)
        | Some _ =>
            match subprocess E cmd (files s) with
            | NotStarted => (false, files s)
            | Exited code files' =>
                if negb (code =? 0)%Z then (false, files')
                else if negb (nonempty_file files' temp_mrs_path) then (false, files')
                else
                  match files' !! temp_path with
                  | None => (false, files')
                  | Some text =>
                      if rename_fails E temp_path final_source then (false, files')
                      else
                        let moved := <[final_source := text]> (delete temp_path files') in
                        match moved !! temp_mrs_path with
                        | None => (false, moved)
                        | Some binary =>
                            if rename_fails E temp_mrs_path final_mrs then (false, moved)
                            else (true, <[final_mrs := binary]> (delete temp_mrs_path moved))
                        end
                  end
            end
        end in
      (Ret converted, State fs (log s ++ entries) (commits s)).
Proof.
  intros mihomo_executable temp_mrs_path cmd.
  unfold convert_to_mrs, try_except, mbind, M_bind, bind, path_exists.
  fold mihomo_executable temp_mrs_path. fold cmd.
  destruct (files s !! mihomo_executable) as [tool|] eqn:Htool.
  2: { rewrite bool_decide_eq_false_2 by (by intros [? ?]). simpl. eauto. }
  rewrite bool_decide_eq_true_2 by done. simpl.
  unfold subprocess_run. simpl.
  destruct (subprocess E cmd (files s)) as [code files'|]; simpl.
  2: { rewrite <- !app_assoc. eauto. }
  destruct (code =? 0)%Z; simpl.
  2: { rewrite <- !app_assoc. eauto. }
  destruct (nonempty_file files' temp_mrs_path); simpl.
  2: { rewrite <- !app_assoc. eauto. }
  unfold rename. simpl.
  destruct (files' !! temp_path) as [text|]; simpl.
  2: { rewrite <- !app_assoc. eauto. }
  destruct (rename_fails E temp_path final_source); simpl.
  { rewrite <- !app_assoc. eauto. }
  destruct (_ !! temp_mrs_path) as [binary|]; simpl.
  2: { rewrite <- !app_assoc. eauto. }
  destruct (rename_fails E temp_mrs_path final_mrs); simpl.
  all: rewrite <- ?app_assoc; eauto.
Qed.

(** X8. [_convert_to_mrs] contains every error: it returns a boolean on
    every path and never raises, it does not publish, and it only adds to
    the log.  Without the tool, or when the tool cannot be started, it
    returns [False] and leaves every file as it was. *)
Theorem conversion_contains_every_error
    (E : env) (name rule_type format_type : string)
    (temp_path final_source final_mrs : string) (s : state) :
  let mihomo_executable := path_join (work_dir E) "mihomo" in
  let temp_mrs_path := path_join (work_dir E) (name +:+ ".mrs") in
  let cmd := [mihomo_executable; "convert-ruleset"%string; rule_type; format_type;
              temp_path; temp_mrs_path] in
  let r := (convert_to_mrs E name rule_type format_type
              temp_path final_source final_mrs s).1 in
  let s' := (convert_to_mrs E name rule_type format_type
               temp_path final_source final_mrs s).2 in
  (∃ converted : bool, r = Ret converted)
  ∧ commits s' = commits s
  ∧ (∃ entries, log s' = log s ++ entries)
  ∧ (files s !! mihomo_executable = None ∨ subprocess E cmd (files s) = NotStarted →
     r = Ret false ∧ files s' = files s).
Proof.
  intros mihomo_executable temp_mrs_path cmd r s'. subst r s'.
  destruct (convert_to_mrs_run E name rule_type format_type
              temp_path final_source final_mrs s) as [entries ->].
  fold mihomo_executable temp_mrs_path. fold cmd.
  destruct (match files s !! mihomo_executable with None => _ | Some _ => _ end)
    as [converted fs] eqn:Hrun.
  simpl. split; [by eexists|]. split; [done|]. split; [by eexists|].
  intros [Hnone|Hsub].
  - rewrite Hnone in Hrun. by injection Hrun as <- <-.
  - rewrite Hsub in Hrun. destruct (files s !! mihomo_executable);
      by injection Hrun as <- <-.
Qed.

(** X9. The two moves are not one step.  When the tool has produced its
    output and the staged text has been moved to the output directory, a
    second move that fails (or finds its source gone, the staged path and
    the tool's output path being the same) makes [_convert_to_mrs] return
    [False] with the text left in the output directory. *)
Theorem failed_second_move_leaves_text_moved
    (E : env) (name rule_type format_type : string)
    (temp_path final_source final_mrs : string) (s : state)
    (files' : gmap string str) (text : str) :
  let mihomo_executable := path_join (work_dir E) "mihomo" in
  let temp_mrs_path := path_join (work_dir E) (name +:+ ".mrs") in
  is_Some (files s !! mihomo_executable) →
  subprocess E [mihomo_executable; "convert-ruleset"%string; rule_type; format_type;
                temp_path; temp_mrs_path] (files s) = Exited 0 files' →
  files' !! temp_path = Some text →
  nonempty_file files' temp_mrs_path = true →
  final_source ≠ temp_mrs_path →
  rename_fails E temp_path final_source = false →
  rename_fails E temp_mrs_path final_mrs = true ∨ temp_path = temp_mrs_path →
  ∃ entries,
    convert_to_mrs E name rule_type format_type temp_path final_source final_mrs s
    = (Ret false,
       State (<[final_source := text]> (delete temp_path files'))
         (log s ++ entries) (commits s)).
Proof.
  intros mihomo_executable temp_mrs_path [tool Htool] Hsub Htext Hout Hne Hfirst Hsecond.
  destruct (convert_to_mrs_run E name rule_type format_type
              temp_path final_source final_mrs s) as [entries ->].
  fold mihomo_executable temp_mrs_path.
  rewrite Htool, Hsub, Hout, Htext, Hfirst. simpl.
  rewrite lookup_insert_ne by done. exists entries.
  destruct Hsecond as [Hsecond| ->].
  - rewrite Hsecond. by destruct (delete temp_path files' !! temp_mrs_path).
  - by rewrite lookup_delete_eq.
Qed.

(** ** The outcomes of a task *)

Lemma path_join_inj dir a b : path_join dir a = path_join dir b → a = b.
Proof.
  unfold path_join. intros H. by do 2 apply String.app_inj in H.
Qed.

Lemma temp_paths_same E name task_config :
  format task_config = "mrs"%string →
  temp_source_path E name task_config = path_join (work_dir E) (name +:+ ".mrs").
Proof. unfold temp_source_path. by intros ->. Qed.

Lemma final_paths_same E name task_config :
  final_source_path E name task_config = final_mrs_path E name →
  format task_config = "mrs"%string.
Proof.
  unfold final_source_path, final_mrs_path. intros H%path_join_inj.
  apply String.app_inj in H. by injection H.
Qed.

Lemma collect_raise_inv results futures e :
  Forall (λ r, is_Some (value r) ∨ r = Raise RetryError) futures →
  collect results futures = Raise e → e = RetryError.
Proof.
  intros Hall. revert results.
  induction Hall as [|r futures Hr _ IH]; intros results; [done|].
  destruct r as [[i c]|e']; simpl; [apply IH|].
  destruct Hr as [[? [=]]|[= ->]]. by intros [= <-].
Qed.

Lemma collect_encodable results futures :
  Forall (λ r, match r with
               | Ret (_, c) => encodable c = true
               | Raise _ => True
               end) futures →
  map_Forall (λ _ c, encodable c = true) results →
  match collect results futures with
  | Ret results' => map_Forall (λ _ c, encodable c = true) results'
  | Raise _ => True
  end.
Proof.
  intros Hall. revert results.
  induction Hall as [|r futures Hr _ IH]; intros results Hresults; [done|].
  destruct r as [[i c]|e]; simpl; [|done].
  apply IH. by apply map_Forall_insert_2.
Qed.

Lemma combined_content_encodable (results : gmap nat str) :
  map_Forall (λ _ c, encodable c = true) results →
  encodable (combined_content results) = true.
Proof.
  intros Hresults. unfold combined_content. apply encodable_concat.
  apply Forall_forall. intros c [Hc _]%list_elem_of_filter_bool.
  apply list_elem_of_omap in Hc as (i & _ & Hi).
  by apply (map_Forall_lookup_1 _ _ _ _ Hresults Hi).
Qed.

(** What a task merges can be encoded, whatever the sources answered. *)
Lemma fetch_sources_encodable E name task_config s :
  match (fetch_sources E name task_config s).1 with
  | Ret results => encodable (combined_content results) = true
  | Raise e => e = RetryError
  end.
Proof.
  destruct (lar_fetch_sources E name task_config s) as [entries ->]. simpl.
  set (futures := _ <$> _).
  assert (Hall : Forall (λ r, is_Some (value r) ∨ r = Raise RetryError) futures).
  { apply Forall_fmap, Forall_true. intros [j src]. simpl.
    destruct (fetched_cases (session_get E name j) src j) as [[c ->]| ->]; eauto. }
  assert (Henc : Forall (λ r, match r with
                              | Ret (_, c) => encodable c = true
                              | Raise _ => True
                              end) futures).
  { apply Forall_fmap, Forall_true. intros [j src]. simpl.
    destruct (fetched _ src j) as [[i c]|e] eqn:Hf; [|done].
    by apply fetched_encodable in Hf. }
  pose proof (collect_encodable ∅ futures Henc (map_Forall_empty _)) as Hresults.
  destruct (collect ∅ futures) as [results|e] eqn:Hcollect.
  - by apply combined_content_encodable.
  - by eapply collect_raise_inv.
Qed.

Lemma merge_and_stage_outcome E name task_config s :
  match (merge_and_stage E name task_config s).1 with
  | Ret _ => nonempty_file (files (merge_and_stage E name task_config s).2)
               (temp_source_path E name task_config) = true
  | Raise e => task_error e
  end.
Proof.
  unfold merge_and_stage. rewrite bind_eq.
  pose proof (fetch_sources_encodable E name task_config s) as Henc.
  destruct (fetch_sources E name task_config s) as [[results|e] s0]; simpl in Henc.
  - pose proof (write_processed_content_outcome E (combined_content results)
                  (temp_source_path E name task_config) (format task_config) s0) as H.
    destruct (write_processed_content _ _ _ _ _) as [[[]|e] s1]; simpl in *; [done|].
    unfold task_error. destruct H as [?|[?|[_ ?]]]; [tauto..|congruence].
  - by left.
Qed.

(** [process_task] as its two stages. *)
Lemma process_task_run E name task_config s :
  process_task E name task_config s
  = match merge_and_stage E name task_config
            (State (files s) (log s ++ [(INFO, "processing rule set: " +:+ name)])
               (commits s)) with
    | (Ret _, s1) =>
        match convert_to_mrs E name (type task_config) (format task_config)
                (temp_source_path E name task_config)
                (final_source_path E name task_config) (final_mrs_path E name) s1 with
        | (Ret true, s2) =>
            (Ret (Some [final_source_path E name task_config; final_mrs_path E name]),
             State (files s2) (log s2 ++ [(INFO, "rule set done: " +:+ name)]) (commits s2))
        | (Ret false, s2) => (Ret None, s2)
        | (Raise e, s2) => (Raise e, s2)
        end
    | (Raise e, s1) => (Raise e, s1)
    end.
Proof.
  unfold process_task. rewrite bind_eq. simpl. rewrite bind_eq.
  destruct (merge_and_stage _ _ _ _) as [[[]|e] s1]; [|done]. rewrite bind_eq.
  by destruct (convert_to_mrs _ _ _ _ _ _ _ _) as [[[|]|e] s2].
Qed.

Lemma convert_to_mrs_commits E name rule_type format_type temp_path fsrc fmrs s :
  commits (convert_to_mrs E name rule_type format_type temp_path fsrc fmrs s).2
  = commits s.
Proof.
  destruct (convert_to_mrs_run E name rule_type format_type temp_path fsrc fmrs s)
    as [entries ->].
  by destruct (match files s !! _ with None => _ | Some _ => _ end).
Qed.

Lemma convert_to_mrs_returns E name rule_type format_type temp_path fsrc fmrs s :
  ∃ converted : bool,
    (convert_to_mrs E name rule_type format_type temp_path fsrc fmrs s).1 = Ret converted.
Proof.
  destruct (convert_to_mrs_run E name rule_type format_type temp_path fsrc fmrs s)
    as [entries ->].
  destruct (match files s !! _ with None => _ | Some _ => _ end). by eexists.
Qed.

Lemma process_task_outcome E name task_config s :
  commits (process_task E name task_config s).2 = commits s
  ∧ match (process_task E name task_config s).1 with
    | Ret None => True
    | Ret (Some generated) =>
        generated = [final_source_path E name task_config; final_mrs_path E name]
    | Raise e =>
        task_error e
        ∧ ∀ q, q ≠ temp_source_path E name task_config →
               q ≠ temp_source_path E name task_config +:+ ".tmp" →
               files (process_task E name task_config s).2 !! q = files s !! q
    end.
Proof.
  rewrite process_task_run.
  set (s0 := State _ _ _).
  pose proof (merge_and_stage_outcome E name task_config s0) as Hstage.
  pose proof (merge_and_stage_commits E name task_config s0) as Hcommits.
  pose proof (merge_and_stage_frame E name task_config s0) as Hframe.
  change (commits s0) with (commits s) in Hcommits.
  change (files s0) with (files s) in Hframe.
  destruct (merge_and_stage E name task_config s0) as [[[]|e] s1]; simpl in *.
  - pose proof (convert_to_mrs_commits E name (type task_config) (format task_config)
                  (temp_source_path E name task_config)
                  (final_source_path E name task_config) (final_mrs_path E name) s1)
      as Hcommits'.
    destruct (convert_to_mrs_returns E name (type task_config) (format task_config)
                (temp_source_path E name task_config)
                (final_source_path E name task_config) (final_mrs_path E name) s1)
      as [converted Hret].
    destruct (convert_to_mrs _ _ _ _ _ _ _ _) as [r s2]. simpl in *. subst r.
    destruct converted; simpl; (split; [congruence|done]).
  - split; [done|]. split; [done|]. intros q Hq Hq'. by apply Hframe.
Qed.

(** X10. [process_task] ends in one of three ways.  It returns the two
    output paths of the task; it returns [None]; or it raises one of
    [RetryError], [ValueError] for blank content, or the error of a failed
    write, and has then changed no file but its staged file and that file's
    temporary sibling.  It never publishes. *)
Theorem task_outcomes
    (E : env) (name : string) (task_config : TaskConfig) (s : state) :
  let r := (process_task E name task_config s).1 in
  let s' := (process_task E name task_config s).2 in
  commits s' = commits s
  ∧ match r with
    | Ret None => True
    | Ret (Some generated) =>
        generated = [final_source_path E name task_config; final_mrs_path E name]
    | Raise e =>
        task_error e
        ∧ ∀ q, q ≠ temp_source_path E name task_config →
               q ≠ temp_source_path E name task_config +:+ ".tmp" →
               files s' !! q = files s !! q
    end.
Proof. apply process_task_outcome. Qed.

Lemma merge_and_stage_returns E name task_config s s1 :
  merge_and_stage E name task_config s = (Ret tt, s1) →
  nonempty_file (files s1) (temp_source_path E name task_config) = true
  ∧ commits s1 = commits s.
Proof.
  intros H. pose proof (merge_and_stage_outcome E name task_config s) as Hstage.
  pose proof (merge_and_stage_commits E name task_config s) as Hcommits.
  rewrite H in Hstage, Hcommits. done.
Qed.

(** X11. The files a task returns are in place.  When the working
    directory and the output directory share no path and [process_task]
    returns its files, the task's format is not [mrs], the text and the
    binary are in the output directory, the binary is not empty, and the
    two working files are gone.  If the tool leaves its input file as it
    found it, the text is not empty either, and the final check passes on
    the returned files. *)
Theorem generated_files_are_in_place
    (E : env) (name : string) (task_config : TaskConfig) (s s' : state)
    (generated : list string) :
  let temp_mrs_path := path_join (work_dir E) (name +:+ ".mrs") in
  (∀ a b, path_join (work_dir E) a ≠ path_join (output_dir E) b) →
  process_task E name task_config s = (Ret (Some generated), s') →
  generated = [final_source_path E name task_config; final_mrs_path E name]
  ∧ format task_config ≠ "mrs"%string
  ∧ is_Some (files s' !! final_source_path E name task_config)
  ∧ nonempty_file (files s') (final_mrs_path E name) = true
  ∧ files s' !! temp_source_path E name task_config = None
  ∧ files s' !! temp_mrs_path = None
  ∧ ((∀ cmd fs code fs', subprocess E cmd fs = Exited code fs' →
        fs' !! temp_source_path E name task_config
        = fs !! temp_source_path E name task_config) →
     nonempty_file (files s') (final_source_path E name task_config) = true
     ∧ (validate_generated_files generated s').1 = Ret true).
Proof.
  intros temp_mrs_path Hdirs. rewrite process_task_run.
  set (s0 := State _ _ _).
  destruct (merge_and_stage E name task_config s0) as [[[]|e] s1] eqn:Hstage; [|done].
  apply merge_and_stage_returns in Hstage as [Hstaged _].
  destruct (convert_to_mrs_run E name (type task_config) (format task_config)
              (temp_source_path E name task_config)
              (final_source_path E name task_config) (final_mrs_path E name) s1)
    as [entries ->].
  fold temp_mrs_path.
  set (temp := temp_source_path E name task_config) in *.
  set (fsrc := final_source_path E name task_config) in *.
  set (fmrs := final_mrs_path E name) in *.
  assert (Htf : temp ≠ fsrc) by apply Hdirs.
  assert (Htm : temp ≠ fmrs) by apply Hdirs.
  assert (Hmf : temp_mrs_path ≠ fsrc) by apply Hdirs.
  assert (Hmm : temp_mrs_path ≠ fmrs) by apply Hdirs.
  destruct (files s1 !! path_join (work_dir E) "mihomo") as [tool|]; [|done].
  destruct (subprocess E _ (files s1)) as [code files'|] eqn:Hsub; [|done].
  destruct (negb (code =? 0)%Z); [done|].
  destruct (nonempty_file files' temp_mrs_path) eqn:Hout; [|done]. simpl.
  destruct (files' !! temp) as [text|] eqn:Htext; [|done].
  destruct (rename_fails E temp fsrc); [done|]. cbv zeta.
  rewrite lookup_insert_ne by done.
  destruct (delete temp files' !! temp_mrs_path) as [binary|] eqn:Hbinary; [|done].
  destruct (rename_fails E temp_mrs_path fmrs); [done|].
  intros [= <- <-]. cbn [files].
  assert (Htt : temp ≠ temp_mrs_path).
  { intros Heq. rewrite <- Heq, lookup_delete_eq in Hbinary. done. }
  rewrite lookup_delete_ne in Hbinary by done.
  assert (Hfmt : format task_config ≠ "mrs"%string).
  { intros Hfmt. apply Htt. by apply temp_paths_same. }
  assert (Hff : fsrc ≠ fmrs).
  { intros Heq. by apply Hfmt, (final_paths_same E name). }
  assert (Hmrs : nonempty_file
                   (<[fmrs := binary]> (delete temp_mrs_path
                      (<[fsrc := text]> (delete temp files')))) fmrs = true).
  { unfold nonempty_file in *. rewrite lookup_insert_eq. by rewrite Hbinary in Hout. }
  assert (Hsrc : (<[fmrs := binary]> (delete temp_mrs_path
                    (<[fsrc := text]> (delete temp files')))) !! fsrc = Some text).
  { by rewrite lookup_insert_ne, lookup_delete_ne, lookup_insert_eq. }
  split; [done|]. split; [done|]. split; [by rewrite Hsrc|]. split; [done|].
  split; [by rewrite lookup_insert_ne, lookup_delete_ne, lookup_insert_ne,
            lookup_delete_eq|].
  split; [by rewrite lookup_insert_ne, lookup_delete_eq|].
  intros Htool.
  assert (Hsrc' : nonempty_file
                    (<[fmrs := binary]> (delete temp_mrs_path
                       (<[fsrc := text]> (delete temp files')))) fsrc = true).
  { unfold nonempty_file in *. rewrite Hsrc.
    rewrite (Htool _ _ _ _ Hsub) in Htext. by rewrite Htext in Hstaged. }
  split; [done|].
  match goal with |- (validate_generated_files ?g ?st).1 = _ =>
    destruct (validate_generated_files_run g st) as [entries' ->] end.
  simpl. by rewrite Hmrs, Hsrc'.
Qed.

(** ** The outcomes of a run *)

Lemma init_env_run E s :
  let mihomo_path := path_join (work_dir E) "mihomo" in
  let gz_path := path_join (work_dir E) "mihomo.gz" in
  ∃ entries,
    init_env E s
    = match files s !! mihomo_path with
      | Some _ => (Ret tt, State (files s) (log s ++ entries) (commits s))
      | None =>
          match mihomo_download E with
          | Downloaded binary =>
              (Ret tt,
               State (delete gz_path (<[mihomo_path := binary]> (files s)))
                 (log s ++ entries) (commits s))
          | DownloadFailed e announced gz tool =>
              (Raise (SystemExit 1),
               State (after_effect mihomo_path tool (after_effect gz_path gz (files s)))
                 (log s ++ entries) (commits s))
          end
      end.
Proof.
  intros mihomo_path gz_path.
  unfold init_env, mbind, M_bind, bind, path_exists. simpl.
  fold mihomo_path.
  destruct (files s !! mihomo_path) as [tool|] eqn:Htool.
  - rewrite bool_decide_eq_true_2 by done. unfold logger. simpl.
    rewrite <- app_assoc. eauto.
  - rewrite bool_decide_eq_false_2 by (by intros [? ?]).
    unfold download_mihomo, try_except, mbind, M_bind, bind, when, apply_effect,
      write_bytes, unlink, sys_exit, raise, ret, logger.
    fold gz_path.
    destruct (mihomo_download E) as [binary|e announced gz tool]; simpl.
    + rewrite <- !app_assoc. eauto.
    + destruct announced, gz, tool, e; simpl; rewrite <- ?app_assoc; eauto.
Qed.

Lemma submit_all_tasks E (tasks : list (string * TaskConfig)) s :
  ∃ futures s',
    submit_all (λ '(name, config), process_task E name config) tasks s = (Ret futures, s')
    ∧ commits s' = commits s
    ∧ Forall (λ r, match r with Raise e => task_error e | Ret _ => True end) futures.
Proof.
  revert s. induction tasks as [|[name config] tasks IH]; intros s.
  - by exists [], s.
  - cbn [submit_all]. rewrite bind_eq. unfold submit at 1.
    destruct (process_task_outcome E name config s) as [Hcommits Hr].
    destruct (process_task E name config s) as [r s1]. simpl in *.
    rewrite bind_eq. destruct (IH s1) as (futures & s' & -> & Hcommits' & Hall).
    exists (r :: futures), s'. split; [done|]. split; [congruence|].
    constructor; [|done]. destruct r as [?|e]; [done|]. by destruct Hr.
Qed.

Lemma gather_run (futures : list (res (option (list string)))) acc s :
  Forall (λ r, match r with Raise e => task_error e | Ret _ => True end) futures →
  let out := foldM
    (λ all_generated_files future,
       generated_files ← result future;
       match generated_files with
       | Some (f :: fs) => ret (all_generated_files ++ f :: fs)
       | Some [] | None =>
           logger WARNING "a task generated no files";;
           ret all_generated_files
       end) acc futures s in
  commits out.2 = commits s
  ∧ match out.1 with Ret _ => True | Raise e => task_error e end.
Proof.
  match goal with |- context [foldM ?f] => set (F := f) end.
  assert (HF : ∀ acc r s,
             match r with
             | Raise e => F acc r s = (Raise e, s)
             | Ret _ => ∃ acc' s', F acc r s = (Ret acc', s') ∧ commits s' = commits s
             end).
  { intros acc' [[[|f fs]|]|e] s0; unfold F; rewrite ?bind_eq; simpl; eauto. }
  clearbody F. intros Hall. revert acc s.
  induction Hall as [|r futures Hr _ IH]; intros acc s; [done|].
  cbn [foldM]. rewrite bind_eq. specialize (HF acc r s).
  destruct r as [generated|e].
  - destruct HF as (acc' & s' & -> & Hcommits).
    destruct (IH acc' s') as [Hcommits' Hout]. split; [congruence|done].
  - by rewrite HF.
Qed.

Lemma process_tasks_outcome E tasks s :
  commits (process_tasks E tasks s).2 = commits s
  ∧ match (process_tasks E tasks s).1 with
    | Ret _ => True
    | Raise e => task_error e
    end.
Proof.
  unfold process_tasks. rewrite bind_eq.
  destruct (submit_all_tasks E
              (as_completed (λ '(name, _), task_finish_time E name) tasks) s)
    as (futures & s' & -> & Hcommits & Hall).
  destruct (gather_run futures [] s' Hall) as [Hcommits' Hr].
  split; [congruence|done].
Qed.

(** X12. A run publishes at most once, and only when it ends normally:
    [run] either returns, having called [commit_changes] exactly once, or
    leaves through [sys.exit(1)] or with the exception of a task, having
    published nothing; the exit status is 0 or 1.  Without tasks the run
    exits with status 1.  When the conversion tool is not there and its
    download fails, the run exits with status 1 before any task starts: the
    files are as the download has left them, which changes no file but
    [mihomo.gz] and [mihomo]. *)
Theorem run_publishes_at_most_once
    (E : env) (tasks : list (string * TaskConfig)) (s : state) :
  let mihomo_path := path_join (work_dir E) "mihomo" in
  let gz_path := path_join (work_dir E) "mihomo.gz" in
  let r := (run E tasks s).1 in
  let s' := (run E tasks s).2 in
  (r = Ret tt ∧ commits s' = S (commits s)
   ∨ (r = Raise (SystemExit 1) ∨ ∃ e, r = Raise e ∧ task_error e)
     ∧ commits s' = commits s)
  ∧ (exit_status r = 0 ∨ exit_status r = 1)%Z
  ∧ (tasks = [] → r = Raise (SystemExit 1))
  ∧ (files s !! mihomo_path = None →
     ∀ e announced gz tool,
       mihomo_download E = DownloadFailed e announced gz tool →
       r = Raise (SystemExit 1)
       ∧ files s' = after_effect mihomo_path tool (after_effect gz_path gz (files s))
       ∧ ∀ q, q ≠ mihomo_path → q ≠ gz_path → files s' !! q = files s !! q).
Proof.
  intros mihomo_path gz_path r s'.
  assert (Hcases : (r = Ret tt ∧ commits s' = S (commits s)
            ∨ (r = Raise (SystemExit 1) ∨ ∃ e, r = Raise e ∧ task_error e)
              ∧ commits s' = commits s)
          ∧ (tasks = [] → r = Raise (SystemExit 1))
          ∧ (files s !! mihomo_path = None →
             ∀ e announced gz tool,
               mihomo_download E = DownloadFailed e announced gz tool →
               r = Raise (SystemExit 1)
               ∧ files s'
                 = after_effect mihomo_path tool (after_effect gz_path gz (files s)))).
  { subst r s'. unfold run. rewrite bind_eq.
    destruct (init_env_run E s) as [entries ->].
    fold mihomo_path. fold gz_path.
    assert (Htasks : ∀ s0, commits s0 = commits s →
              let out := (all_generated_files ← process_tasks E tasks;
                          check_and_publish E all_generated_files) s0 in
              (out.1 = Ret tt ∧ commits out.2 = S (commits s)
               ∨ (out.1 = Raise (SystemExit 1) ∨ ∃ e, out.1 = Raise e ∧ task_error e)
                 ∧ commits out.2 = commits s)
              ∧ (tasks = [] → out.1 = Raise (SystemExit 1))).
    { intros s0 Hs0 out. subst out. rewrite bind_eq.
      destruct (process_tasks_outcome E tasks s0) as [Hcommits Hr].
      assert (Hnil : tasks = [] → process_tasks E tasks s0 = (Ret [], s0)).
      { by intros ->. }
      destruct (process_tasks E tasks s0) as [[generated|e] s1]; simpl in *.
      - destruct (check_and_publish_run E generated s1) as [entries' ->].
        split.
        + destruct (bool_decide _ && forallb _ _); simpl; [left|right];
            (split; [eauto|congruence]).
        + intros [= -> ->]%Hnil. done.
      - split; [right; split; [eauto|congruence]|]. by intros [=]%Hnil. }
    destruct (files s !! mihomo_path) as [present|];
      [|destruct (mihomo_download E) as [binary|e announced gz tool]].
    - destruct (Htasks (State (files s) (log s ++ entries) (commits s)) eq_refl)
        as [H1 H2]. done.
    - destruct (Htasks (State (delete gz_path (<[mihomo_path := binary]> (files s)))
                          (log s ++ entries) (commits s)) eq_refl) as [H1 H2]. done.
    - simpl. split; [right; split; [by left|done]|]. split; [done|].
      intros _ e' announced' gz' tool' [= <- <- <- <-]. done. }
  destruct Hcases as (Hcases & Hnil & Htool). split; [done|]. split; [|split; [done|]].
  - destruct Hcases as [[-> _]|[[->|(e & -> & [->|[->| ->]])] _]]; simpl; auto.
  - intros Hnone e announced gz tool Hdownload.
    destruct (Htool Hnone e announced gz tool Hdownload) as [Hr Hfiles].
    split; [done|]. split; [done|]. intros q Hq Hq'. rewrite Hfiles.
    destruct gz, tool; simpl;
      by rewrite ?lookup_insert_ne, ?lookup_delete_ne, ?lookup_insert_ne,
           ?lookup_delete_ne.
Qed.

(** ** The link of the conversion tool *)

Lemma startswith_spec (s p : str) : startswith s p = true ↔ ∃ t, s = p ++ t.
Proof.
  revert s. induction p as [|a p IH]; intros s.
  - split; [intros _; by exists s|intros _; by destruct s].
  - destruct s as [|b s]; cbn [startswith].
    + split; [done|]. by intros [t [=]].
    + rewrite andb_true_iff, N.eqb_eq, IH. split.
      * intros [-> [t ->]]. by exists t.
      * intros [t [= -> ->]]. split; [done|by exists t].
Qed.

Lemma contains_spec (s p : str) : contains s p = true ↔ ∃ a b, s = a ++ p ++ b.
Proof.
  induction s as [|c s IH]; cbn [contains]; rewrite orb_true_iff, startswith_spec.
  - split.
    + intros [[t Ht]|[=]]. by exists [], t.
    + intros (a & b & H). left. symmetry in H.
      apply app_eq_nil in H as [-> H]. by exists b.
  - rewrite IH. split.
    + intros [[t Ht]|(a & b & ->)]; [by exists [], t|by exists (c :: a), b].
    + intros ([|c' a] & b & H); [left; by exists b|].
      injection H as <- ->. right. by exists a, b.
Qed.

Lemma endswith_spec (s p : str) : endswith s p = true ↔ ∃ a, s = a ++ p.
Proof.
  unfold endswith. rewrite startswith_spec. split.
  - intros [t Ht]. exists (reverse t).
    apply (f_equal reverse) in Ht. rewrite reverse_involutive in Ht.
    by rewrite Ht, reverse_app, reverse_involutive.
  - intros [a ->]. exists (reverse a). by rewrite reverse_app.
Qed.

Lemma find_in_assets_find mihomo_config (assets : list Asset) :
  find_in_assets mihomo_config assets
  = browser_download_url <$> List.find (asset_matches mihomo_config) assets.
Proof.
  induction assets as [|asset assets IH]; [done|]. simpl.
  by destruct (asset_matches mihomo_config asset).
Qed.

Lemma find_app {A} (f : A → bool) (l1 l2 : list A) :
  List.find f (l1 ++ l2)
  = match List.find f l1 with
    | Some x => Some x
    | None => List.find f l2
    end.
Proof.
  induction l1 as [|x l1 IH]; [done|]. simpl. by destruct (f x).
Qed.

Lemma find_download_url_find releases mihomo_config :
  find_download_url releases mihomo_config
  = match List.find (asset_matches mihomo_config)
            (concat ((λ release, default [] (assets release))
                       <$> List.filter prerelease_alpha releases)) with
    | Some asset => browser_download_url asset
    | None => None
    end.
Proof.
  induction releases as [|release releases IH]; [done|].
  cbn [find_download_url List.filter].
  destruct (prerelease_alpha release); simpl; [|done].
  rewrite find_in_assets_find, find_app, IH.
  by destruct (List.find _ (default [] (assets release))).
Qed.

(** X13. [_find_download_url] returns the link of the first asset, in the
    order of the release list, that belongs to a release whose tag contains
    [Prerelease-Alpha] and whose name contains the binary pattern and ends
    with the file extension.  The search stops at that asset: when it has no
    link the result is [None], whatever follows.  A link that is returned
    is the link of such an asset of such a release. *)
Theorem download_url_is_first_match
    (releases : list Release) (mihomo_config : MihomoConfig) :
  find_download_url releases mihomo_config
  = match List.find (asset_matches mihomo_config)
            (concat ((λ release, default [] (assets release))
                       <$> List.filter prerelease_alpha releases)) with
    | Some asset => browser_download_url asset
    | None => None
    end
  ∧ (∀ download_url, find_download_url releases mihomo_config = Some download_url →
       ∃ release asset,
         release ∈ releases ∧ asset ∈ default [] (assets release)
         ∧ browser_download_url asset = Some download_url
         ∧ (∃ a b, default [] (tag_name release) = a ++ lit "Prerelease-Alpha" ++ b)
         ∧ (∃ a b, default [] (asset_name asset)
                   = a ++ binary_pattern mihomo_config ++ b)
         ∧ (∃ a, default [] (asset_name asset) = a ++ file_extension mihomo_config))
  ∧ (∀ release, prerelease_alpha release = false →
       find_download_url (release :: releases) mihomo_config
       = find_download_url releases mihomo_config)
  ∧ (∀ release asset assets',
       prerelease_alpha release = true → assets release = Some (asset :: assets') →
       asset_matches mihomo_config asset = true →
       find_download_url (release :: releases) mihomo_config
       = browser_download_url asset).
Proof.
  split; [apply find_download_url_find|]. split; [|split].
  - intros download_url. rewrite find_download_url_find.
    destruct (List.find _ _) as [asset|] eqn:Hfind; [|done]. intros Hurl.
    apply find_some in Hfind as [Hin Hmatch].
    apply list_elem_of_In, elem_of_concat in Hin as (l & Hasset & Hl).
    apply list_elem_of_fmap in Hl as (release & -> & Hrelease).
    apply list_elem_of_filter_bool in Hrelease as [Hrelease Halpha].
    exists release, asset. split; [done|]. split; [done|]. split; [done|].
    apply contains_spec in Halpha. split; [done|].
    unfold asset_matches in Hmatch.
    apply andb_true_iff in Hmatch as [Hpattern Hext].
    by apply contains_spec in Hpattern; apply endswith_spec in Hext.
  - intros release Halpha. simpl. by rewrite Halpha.
  - intros release asset assets' Halpha Hassets Hmatch. simpl.
    by rewrite Halpha, Hassets; simpl; rewrite Hmatch.
Qed.

(** ** The log of an attempt, and the content of the default chain *)

(** X14. An attempt that receives a text changes no file and logs, in this
    order: the download; one warning for each unknown entry of the chain;
    then, when the processed content can be encoded, its size, and the
    warning for an empty content exactly when the processed content is the
    empty string (its encoded size is zero for no other content).  When the
    processed content cannot be encoded, the attempt logs the warning for a
    processing error instead and returns the empty content. *)
Theorem empty_content_is_warned_about
    (get : string → nat → response) (source : SourceConfig)
    (index k : nat) (text : str) (s : state) :
  get (url source) k = RespText text →
  let chain := processors_or_default source in
  let content := ensure_newline (apply_chain chain text) in
  download_and_process_source_attempt get source index k s
  = (Ret (index, if encodable content then content else []),
     State (files s)
       (log s ++ [(INFO, "downloading source: " +:+ url source)]
          ++ chain_warnings chain
          ++ (if encodable content
              then (DEBUG, "size of processed content"%string)
                   :: (if truthy content then []
                       else [(WARNING, "content is empty: " +:+ url source)])
              else [(WARNING, "error while processing source: " +:+ url source)]))
       (commits s))
  ∧ (utf8_size content = Some 0 ↔ content = [])
  ∧ (utf8_size content = None ↔ encodable content = false).
Proof.
  intros Hget chain content. split; [by apply attempt_text_run|].
  unfold utf8_size. destruct (encodable content) eqn:Henc.
  - destruct (utf8_size_encodable content Henc) as (file_size & Hsize & Hzero).
    unfold utf8_size in Hsize. rewrite Henc in Hsize. injection Hsize as Hsize.
    rewrite Hsize. split; [|done]. rewrite <- Hzero. split; [by intros [= ->]|by intros ->].
  - split; [|done]. split; [done|]. intros Hnil. by rewrite Hnil in Henc.
Qed.

Lemma splitlines_join_LF (lines : list str) :
  Forall (λ line, line ≠ [] ∧ no_linebreak line) lines → lines ≠ [] →
  splitlines (join [LF] lines ++ [LF]) = lines.
Proof.
  induction 1 as [|line lines [Hne Hline] Hlines IH]; [done|]. intros _.
  destruct lines as [|line' lines].
  - simpl. rewrite splitlines_line_LF by done. done.
  - change (join [LF] (line :: line' :: lines))
      with (line ++ [LF] ++ join [LF] (line' :: lines)).
    rewrite <- !app_assoc. change ([LF] ++ ?x) with (LF :: x).
    rewrite splitlines_line_LF by done. by rewrite IH.
Qed.

Lemma splitlines_ensure_newline_join (lines : list str) :
  Forall (λ line, line ≠ [] ∧ no_linebreak line) lines →
  splitlines (ensure_newline (join [LF] lines)) = lines.
Proof.
  intros Hlines. unfold ensure_newline. destruct (_ && _) eqn:Hadd.
  - apply splitlines_join_LF; [done|]. intros ->. done.
  - by apply splitlines_join.
Qed.

(** The text that the default chain and the newline step make. *)
Lemma default_chain_processed (text : str) :
  let processed := ensure_newline (remove_comments_and_empty text) in
  splitlines processed = List.filter keep_line (splitlines text)
  ∧ (processed = [] ↔ List.filter keep_line (splitlines text) = [])
  ∧ truthy (strip processed) = truthy processed.
Proof.
  intros processed.
  assert (Hkept : Forall (λ line, line ≠ [] ∧ no_linebreak line)
                    (List.filter keep_line (splitlines text))).
  { eapply Forall_impl; [apply Forall_filter_bool, splitlines_no_linebreak|].
    intros line [Hkeep Hline]. split; [by apply keep_line_nonempty|done]. }
  assert (Hlines : splitlines processed = List.filter keep_line (splitlines text)).
  { by apply splitlines_ensure_newline_join. }
  assert (Hnil : processed = [] ↔ List.filter keep_line (splitlines text) = []).
  { rewrite <- Hlines. split; [by intros ->|].
    intros H. destruct processed as [|c processed']; [done|].
    by apply (splitlines_nonempty (c :: processed')) in H. }
  split; [done|]. split; [done|].
  destruct (List.filter keep_line (splitlines text)) as [|line kept] eqn:Hfilter.
  - by rewrite (proj2 Hnil eq_refl).
  - assert (Hin : line ∈ List.filter keep_line (splitlines text))
      by (rewrite Hfilter; left).
    apply list_elem_of_filter_bool in Hin as [_ Hkeep].
    apply keep_line_spec in Hkeep as [Hnb _].
    apply strip_nonblank_iff in Hnb as (x & Hx & Hsp).
    assert (Hc : strip processed ≠ []).
    { apply strip_nonblank_iff. exists x. split; [|done].
      apply (elem_of_splitlines_elem processed line); [|done].
      rewrite Hlines. left. }
    destruct (strip processed); [done|].
    destruct processed; [by destruct Hnil as [_ ?]|done].
Qed.

Lemma combined_content_singleton (i : nat) (content : str) :
  combined_content {[ i := content ]}
  = if truthy (strip content) then content else [].
Proof.
  unfold combined_content, sorted_keys.
  rewrite dom_singleton_L, elements_singleton. simpl.
  rewrite lookup_singleton_eq. simpl.
  destruct (truthy (strip content)); simpl; by rewrite ?app_nil_r.
Qed.

(** X15. The content of a source with the default chain.  An attempt that
    receives a text returns the text without its blank lines and comments,
    newline-terminated, or the empty content when that cannot be encoded.
    The lines of the content are the lines of the text that are neither
    blank nor comments; the content is empty exactly when the text has no
    such line or cannot be encoded; and it is blank only when it is empty,
    so that the merge of a task with this one source is this content, and
    leaves it out exactly when it is empty. *)
Theorem default_chain_content
    (get : string → nat → response) (source : SourceConfig)
    (index k : nat) (text : str) :
  processors source = None ∨ processors source = Some [] →
  get (url source) k = RespText text →
  let processed := ensure_newline (remove_comments_and_empty text) in
  let content := if encodable processed then processed else [] in
  logs_and_returns (download_and_process_source_attempt get source index k)
    (Ret (index, content))
  ∧ splitlines content
    = (if encodable processed then List.filter keep_line (splitlines text) else [])
  ∧ (content = []
     ↔ Forall (λ line, keep_line line = false) (splitlines text)
       ∨ encodable processed = false)
  ∧ truthy (strip content) = truthy content
  ∧ combined_content {[ index := content ]} = content.
Proof.
  intros Hchain Hget processed content.
  assert (Hdefault : processors_or_default source = ["remove_comments_and_empty"%string]).
  { unfold processors_or_default. by destruct Hchain as [-> | ->]. }
  destruct (default_chain_processed text) as (Hlines & Hnil & Hstrip).
  fold processed in Hlines, Hnil, Hstrip.
  assert (Hcontent : truthy (strip content) = truthy content).
  { unfold content. by destruct (encodable processed). }
  assert (Hforall : List.filter keep_line (splitlines text) = []
                    ↔ Forall (λ line, keep_line line = false) (splitlines text)).
  { clear. induction (splitlines text) as [|line lines IH]; [done|].
    simpl. rewrite Forall_cons. destruct (keep_line line); [|tauto].
    split; [done|]. by intros [? _]. }
  split; [|split; [|split; [|split; [done|]]]].
  - pose proof (lar_attempt get source index k) as Hlar.
    unfold attempt_outcome in Hlar. rewrite Hget, Hdefault in Hlar. exact Hlar.
  - unfold content. by destruct (encodable processed).
  - unfold content. rewrite <- Hforall, <- Hnil.
    destruct (encodable processed); [|by split; [right|]].
    split; [by left|]. by intros [?|?].
  - rewrite combined_content_singleton, Hcontent. by destruct content.
Qed.

(** ** The final check, file by file *)

Lemma validate_loop_log (generated : list string) (all_ok : bool) s :
  foldM (λ all_ok file_path,
           good ← exists_nonempty file_path;
           if (good : bool) then
             logger INFO ("file check passed: " +:+ file_path);;
             ret all_ok
           else
             logger ERROR ("file check failed, missing or empty: " +:+ file_path);;
             ret false) all_ok generated s
  = (Ret (all_ok && forallb (nonempty_file (files s)) generated),
     State (files s)
       (log s ++ ((λ file_path,
                     if nonempty_file (files s) file_path
                     then (INFO, "file check passed: " +:+ file_path)
                     else (ERROR, "file check failed, missing or empty: " +:+ file_path))
                  <$> generated))
       (commits s)).
Proof.
  match goal with |- context [foldM ?f] => set (F := f) end.
  assert (HF : ∀ a p s,
             F a p s = (Ret (a && nonempty_file (files s) p),
                        State (files s)
                          (log s ++ [if nonempty_file (files s) p
                                     then (INFO, "file check passed: " +:+ p)
                                     else (ERROR, "file check failed, missing or empty: "
                                                  +:+ p)])
                          (commits s))).
  { intros a p s0. unfold F, mbind, M_bind, bind, exists_nonempty.
    destruct (nonempty_file (files s0) p); simpl.
    - by rewrite andb_true_r.
    - by rewrite andb_false_r. }
  clearbody F. revert all_ok s.
  induction generated as [|p generated IH]; intros all_ok s.
  - simpl. unfold ret. by rewrite andb_true_r, app_nil_r, state_eta.
  - cbn [foldM forallb fmap list_fmap]. rewrite bind_eq, HF, IH. simpl.
    by rewrite <- app_assoc, andb_assoc.
Qed.

(** X16. The final check reads and never writes: it raises nothing and
    changes no file.  It goes through every file, also after one has
    failed, and logs one entry for each, in order; for no files it logs one
    error.  It passes exactly when there is a file and every file is there
    and not empty. *)
Theorem final_check_reads_every_file (generated : list string) (s : state) :
  validate_generated_files generated s
  = (Ret (bool_decide (generated ≠ []) && forallb (nonempty_file (files s)) generated),
     State (files s)
       (log s ++ match generated with
                 | [] => [(ERROR, "no file was generated"%string)]
                 | _ :: _ =>
                     (λ file_path,
                        if nonempty_file (files s) file_path
                        then (INFO, "file check passed: " +:+ file_path)
                        else (ERROR, "file check failed, missing or empty: "
                                     +:+ file_path))
                     <$> generated
                 end)
       (commits s)).
Proof.
  destruct generated as [|p generated]; [done|].
  unfold validate_generated_files. by rewrite validate_loop_log.
Qed.

(** ** The further properties on concrete runs *)

(** The premise of X4 holds for the task [ads]. *)
Lemma merged_lines_are_source_lines_witness :
  let E := surroundings tool_converts id in
  source_outcomes E "ads" ads = imap (λ i c, Ret (i, c)) ads_contents
  ∧ ∃ results : gmap nat str,
      logs_and_returns (fetch_sources E "ads" ads) (Ret results)
      ∧ splitlines (combined_content results)
        = [lit "b"; lit "a"; lit "b"; lit "z"; lit "a"].
Proof.
  intros E.
  assert (Hout : source_outcomes E "ads" ads = imap (λ i c, Ret (i, c)) ads_contents)
    by (vm_compute; reflexivity).
  split; [exact Hout|].
  destruct (merged_lines_are_source_lines E "ads" ads ads_contents Hout)
    as (results & Hlar & _ & _ & Hlines).
  exists results. split; [exact Hlar|]. rewrite Hlines. vm_compute. reflexivity.
Defined.

(** The premises of X5 hold for the task [ads] and the same task with its
    sources in the other order: both stage the same body. *)
Lemma merged_body_ignores_source_order_witness :
  let E := surroundings tool_converts id in
  source_outcomes E "ads" ads = imap (λ i c, Ret (i, c)) ads_contents
  ∧ source_outcomes E "ads" ads_reversed
    = imap (λ i c, Ret (i, c)) (reverse ads_contents)
  ∧ (∀ c, c ∈ ads_contents ↔ c ∈ reverse ads_contents)
  ∧ format ads ≠ "yaml"%string
  ∧ format ads_reversed ≠ "yaml"%string
  ∧ ∃ body,
      final_content (splitlines (merged ads_contents)) (format ads) = Ret body
      ∧ (merge_and_stage E "ads" ads installed).1 = Ret tt
      ∧ (merge_and_stage E "ads" ads_reversed installed).1 = Ret tt
      ∧ files (merge_and_stage E "ads" ads installed).2
          !! temp_source_path E "ads" ads = Some body
      ∧ files (merge_and_stage E "ads" ads_reversed installed).2
          !! temp_source_path E "ads" ads_reversed = Some body.
Proof.
  intros E.
  assert (Hfmt1 : format ads ≠ "yaml"%string) by (vm_compute; discriminate).
  assert (Hfmt2 : format ads_reversed ≠ "yaml"%string) by (vm_compute; discriminate).
  assert (Hsame : ∀ c, c ∈ ads_contents ↔ c ∈ reverse ads_contents)
    by (intros c; symmetry; apply elem_of_reverse).
  assert (Hout1 : source_outcomes E "ads" ads = imap (λ i c, Ret (i, c)) ads_contents)
    by (vm_compute; reflexivity).
  assert (Hout2 : source_outcomes E "ads" ads_reversed
                  = imap (λ i c, Ret (i, c)) (reverse ads_contents))
    by (vm_compute; reflexivity).
  assert (Hret1 : (merge_and_stage E "ads" ads installed).1 = Ret tt)
    by (vm_compute; reflexivity).
  assert (Hret2 : (merge_and_stage E "ads" ads_reversed installed).1 = Ret tt)
    by (vm_compute; reflexivity).
  split; [exact Hout1|]. split; [exact Hout2|]. split; [exact Hsame|].
  split; [exact Hfmt1|]. split; [exact Hfmt2|].
  destruct (merged_body_ignores_source_order E E "ads" "ads" ads ads_reversed
              ads_contents (reverse ads_contents) Hout1 Hout2 Hsame Hfmt1 Hfmt2)
    as (body & Hbody & _ & _ & Hstage).
  exists body. split; [exact Hbody|]. split; [exact Hret1|]. split; [exact Hret2|].
  split.
  - pose proof (Hstage true installed) as Htrue. cbv beta iota zeta in Htrue.
    destruct Htrue as [_ Htrue]. rewrite Hret1 in Htrue. exact Htrue.
  - pose proof (Hstage false installed) as Hfalse. cbv beta iota zeta in Hfalse.
    destruct Hfalse as [_ Hfalse]. rewrite Hret2 in Hfalse. exact Hfalse.
Defined.

(** The premise of X6 holds for a text with a duplicate line, staged on
    the disk with the tool. *)
Lemma restaging_changes_nothing_witness :
  let E := surroundings tool_converts id in
  let s' := (write_processed_content E (text ["b"; "a"; "b"]) "work/ads.text" "text"
               installed).2 in
  write_processed_content E (text ["b"; "a"; "b"]) "work/ads.text" "text" installed
  = (Ret tt, s')
  ∧ files s' !! "work/ads.text"%string = Some (lit "a" ++ [LF] ++ lit "b")
  ∧ ∃ body, write_processed_content E body "work/ads.text" "text" s' = (Ret tt, s').
Proof.
  intros E s'.
  assert (Hstage : write_processed_content E (text ["b"; "a"; "b"]) "work/ads.text"
                     "text" installed = (Ret tt, s'))
    by (vm_compute; reflexivity).
  split; [exact Hstage|]. split; [vm_compute; reflexivity|].
  destruct (restaging_changes_nothing E (text ["b"; "a"; "b"]) "work/ads.text" "text"
              installed s' Hstage) as (body & _ & _ & Hagain).
  exists body. exact Hagain.
Defined.

(** The premises of X9 hold for the task [ads] when the move of the binary
    fails: the conversion returns [False], and the text is in the output
    directory without its binary. *)
Lemma failed_second_move_leaves_text_moved_witness :
  let E := with_rename_fails (λ _ dst, String.eqb dst "rules/ads.mrs")
             (surroundings tool_converts id) in
  let s1 := (merge_and_stage E "ads" ads installed).2 in
  let out := convert_to_mrs E "ads" "domain" "text"
               "work/ads.text" "rules/ads.text" "rules/ads.mrs" s1 in
  is_Some (files s1 !! "work/mihomo"%string)
  ∧ rename_fails E "work/ads.mrs" "rules/ads.mrs" = true
  ∧ out.1 = Ret false
  ∧ files out.2 !! "rules/ads.text"%string
    = Some (lit "a" ++ [LF] ++ lit "b" ++ [LF] ++ lit "z")
  ∧ files out.2 !! "rules/ads.mrs"%string = None.
Proof.
  intros E s1 out.
  assert (Hpaths : "rules/ads.text"%string ≠ path_join (work_dir E) ("ads" +:+ ".mrs"))
    by (vm_compute; discriminate).
  assert (Htool : is_Some (files s1 !! path_join (work_dir E) "mihomo"))
    by (eexists; vm_compute; reflexivity).
  assert (Hsecond : rename_fails E (path_join (work_dir E) ("ads" +:+ ".mrs"))
                      "rules/ads.mrs" = true) by (vm_compute; reflexivity).
  split; [exact Htool|]. split; [exact Hsecond|].
  destruct (failed_second_move_leaves_text_moved E "ads" "domain" "text"
              "work/ads.text" "rules/ads.text" "rules/ads.mrs" s1
              (<["work/ads.mrs"%string := [77; 82; 83]]> (files s1))
              (lit "a" ++ [LF] ++ lit "b" ++ [LF] ++ lit "z")
              Htool) as [entries Hconv].
  - vm_compute. reflexivity.
  - vm_compute. reflexivity.
  - vm_compute. reflexivity.
  - exact Hpaths.
  - vm_compute. reflexivity.
  - left. exact Hsecond.
  - subst out. rewrite Hconv. cbn [fst snd files].
    split; [reflexivity|]. split; vm_compute; reflexivity.
Defined.

(** The premises of X11 hold for the task [ads]: its two files are in
    place and pass the final check. *)
Lemma generated_files_are_in_place_witness :
  let E := surroundings tool_converts id in
  let s' := (process_task E "ads" ads installed).2 in
  (∀ a b, path_join (work_dir E) a ≠ path_join (output_dir E) b)
  ∧ process_task E "ads" ads installed
    = (Ret (Some ["rules/ads.text"%string; "rules/ads.mrs"%string]), s')
  ∧ nonempty_file (files s') "rules/ads.mrs" = true
  ∧ files s' !! "work/ads.text"%string = None.
Proof.
  intros E s'.
  assert (Hdirs : ∀ a b, path_join (work_dir E) a ≠ path_join (output_dir E) b)
    by (intros a b; vm_compute; discriminate).
  assert (Htask : process_task E "ads" ads installed
                  = (Ret (Some ["rules/ads.text"%string; "rules/ads.mrs"%string]), s'))
    by (vm_compute; reflexivity).
  split; [exact Hdirs|]. split; [exact Htask|].
  destruct (generated_files_are_in_place E "ads" ads installed s' _ Hdirs Htask)
    as (_ & _ & _ & Hmrs & Htemp & _).
  split; [exact Hmrs|exact Htemp].
Defined.

(** The premise of X14 holds for a source with comments only: its content
    is empty, and the warning is the last entry of the log.  It also holds
    for a text with a lone surrogate and a chain of one unknown name: the
    content cannot be encoded, the attempt returns the empty content, and
    the log has two warnings and no size. *)
Lemma empty_content_is_warned_about_witness :
  let src := source "https://c.example/comments" in
  web (url src) 0 = RespText (text ["# nothing here"])
  ∧ surrogate_web (url unknown_only) 0 = RespText (lit "a" ++ [55296])
  ∧ download_and_process_source_attempt web src 0 0 empty_disk
    = (Ret (0%nat, []),
       State ∅ [(INFO, "downloading source: https://c.example/comments"%string);
                (DEBUG, "size of processed content"%string);
                (WARNING, "content is empty: https://c.example/comments"%string)] 0)
  ∧ download_and_process_source_attempt surrogate_web unknown_only 0 0 empty_disk
    = (Ret (0%nat, []),
       State ∅ [(INFO, "downloading source: https://s.example/list"%string);
                (WARNING, "unknown processor: nope"%string);
                (WARNING, "error while processing source: https://s.example/list"%string)]
         0).
Proof.
  intros src.
  assert (Hget : web (url src) 0 = RespText (text ["# nothing here"])) by reflexivity.
  assert (Hsurrogate : surrogate_web (url unknown_only) 0 = RespText (lit "a" ++ [55296]))
    by reflexivity.
  split; [exact Hget|]. split; [exact Hsurrogate|]. split.
  - destruct (empty_content_is_warned_about web src 0 0 _ empty_disk Hget) as [Hrun _].
    rewrite Hrun. vm_compute. reflexivity.
  - destruct (empty_content_is_warned_about surrogate_web unknown_only 0 0 _
                empty_disk Hsurrogate) as [Hrun _].
    rewrite Hrun. vm_compute. reflexivity.
Defined.

(** The premises of X15 hold for the first source of the task [ads]: the
    comment is gone from its content. *)
Lemma default_chain_content_witness :
  let src := source "https://a.example/list" in
  (processors src = None ∨ processors src = Some [])
  ∧ web (url src) 0 = RespText (text ["b"; "#c"; "a"; "b"])
  ∧ logs_and_returns (download_and_process_source_attempt web src 0 0)
      (Ret (0%nat, text ["b"; "a"; "b"]))
  ∧ combined_content {[ 0%nat := text ["b"; "a"; "b"] ]} = text ["b"; "a"; "b"].
Proof.
  intros src.
  assert (Hchain : processors src = None ∨ processors src = Some []) by (by left).
  assert (Hget : web (url src) 0 = RespText (text ["b"; "#c"; "a"; "b"]))
    by reflexivity.
  split; [exact Hchain|]. split; [exact Hget|].
  destruct (default_chain_content web src 0 0 _ Hchain Hget)
    as (Hlar & _ & _ & _ & Hmerge).
  split; [exact Hlar|exact Hmerge].
Defined.

(** A content with a lone surrogate that reaches the staged write: the
    write raises [UnicodeEncodeError], the staged file is as before and the
    temporary file is gone. *)
Example surrogate_is_not_staged :
  let E := surroundings tool_converts id in
  let out := write_processed_content E (lit "a" ++ [55296; LF]) "work/ads.text" "text"
               installed in
  out.1 = Raise UnicodeEncodeError ∧ files out.2 = files installed.
Proof. vm_compute. by split. Qed.
